(** * InfoHubv3: the keyword-matching, ranking and post-assembly pipeline

    A shallow embedding of the latest revision of [react/InfoHubv3.tsx]
    (the component that declares [showInfoHub]) and the properties of its
    pipeline stages.  React state and refs are threaded explicitly; the
    browser and the JavaScript engine are an interface ([Host]). *)

From Stdlib Require Import List ZArith String Ascii Bool Lia Permutation Arith.
Import ListNotations.
Local Open Scope Z_scope.

(** ** Data model (the TypeScript interfaces)

    Arrays hold references to post objects.  The record types take the
    type [P] of what an array of posts holds: [PostObject] itself where a
    post is only read, an address in a store where copies and writes are
    followed. *)

Record KeywordString := { k_editorItemTitle : string }.

Record PostObject := {
  startDate : string;
  active : bool;
  p_editorItemTitle : string;
  image : string;
  url : string
}.

Record KeywordObject (P : Type) := {
  a_editorItemTitle : string;
  keywords : list KeywordString;
  topicType : Z;
  posts : list P
}.
Arguments a_editorItemTitle {P}.
Arguments keywords {P}.
Arguments topicType {P}.
Arguments posts {P}.

Record KeywordInfoObject := { keyword : string; topic : Z }.

Record TopicAndPriority := { tp_topic : Z; tp_priority : Z }.

Record InfoHubv3Props (P : Type) := {
  titleText : string;
  articles : list (KeywordObject P);
  priority : list P
}.
Arguments titleText {P}.
Arguments articles {P}.
Arguments priority {P}.

Inductive Device := desktop | mobile.

Definition maximumDesktopPosts : nat := 10.
Definition maximumMobilePosts : nat := 6.

(** What the component reads from the page: [canUseDOM],
    [window.location.pathname], [window.location.search] (also
    [document.location.search]), [window.innerWidth] and [Date.now()]. *)
Record Window := {
  canUseDOM : bool;
  pathname : string;
  search : string;
  innerWidth : Z;
  Date_now : Z
}.

(** React state ([loading], [posts]) and refs ([device],
    [activePriorityPosts]) of one mounted component. *)
Record HubState (P : Type) := {
  loading : bool;
  postsState : list P;
  device : Device;
  activePriorityPosts : nat
}.
Arguments loading {P}.
Arguments postsState {P}.
Arguments device {P}.
Arguments activePriorityPosts {P}.

Definition initialState {P : Type} : HubState P :=
  {| loading := true; postsState := []; device := mobile;
     activePriorityPosts := 0%nat |}.

Definition setLoading {P : Type} (b : bool) (st : HubState P) : HubState P :=
  {| loading := b; postsState := postsState st; device := device st;
     activePriorityPosts := activePriorityPosts st |}.

Definition setPosts {P : Type} (ps : list P) (st : HubState P) : HubState P :=
  {| loading := loading st; postsState := ps; device := device st;
     activePriorityPosts := activePriorityPosts st |}.

Definition setDevice {P : Type} (d : Device) (st : HubState P) : HubState P :=
  {| loading := loading st; postsState := postsState st; device := d;
     activePriorityPosts := activePriorityPosts st |}.

Definition setActivePriorityPosts {P : Type} (n : nat) (st : HubState P)
  : HubState P :=
  {| loading := loading st; postsState := postsState st; device := device st;
     activePriorityPosts := n |}.

(** ** The host: built-ins of the JavaScript engine and the browser

    [Date_parse] answers [None] for NaN.  [URLSearchParams_get q name] is
    [new URLSearchParams(q).get(name)].  [Array_sort] is
    [Array.prototype.sort] with a comparator whose result has already been
    converted to a number; the language only promises a permutation when
    the comparator is not consistent. *)
Class Host := {
  toLowerCase : string -> string;
  toLowerCase_empty : toLowerCase EmptyString = EmptyString;
  Date_parse : string -> option Z;
  URLSearchParams_get : string -> string -> option string;
  Array_sort : forall A : Type, (A -> A -> Z) -> list A -> list A;
  Array_sort_perm :
    forall (A : Type) (cmp : A -> A -> Z) (l : list A),
      Permutation (Array_sort A cmp l) l
}.

(** ** String.prototype.includes *)

Fixpoint includes (s k : string) : bool :=
  if String.prefix k s then true
  else match s with
       | EmptyString => false
       | String _ s' => includes s' k
       end.

(** [k] occurs in [s] as a contiguous substring. *)
Definition Substring (k s : string) : Prop :=
  exists a b : string, s = (a ++ k ++ b)%string.

(** ** Insertion-ordered [Set] and [Map] *)

Definition Set_add (x : Z) (s : list Z) : list Z :=
  if existsb (Z.eqb x) s then s else s ++ [x].

(** [[...new Set(l)]] *)
Definition Set_of (l : list Z) : list Z :=
  fold_left (fun s x => Set_add x s) l [].

(** [Map.prototype.set]: a key already present keeps its place and takes
    the new value. *)
Fixpoint Map_set {V : Type} (k : string) (v : V) (m : list (string * V))
  : list (string * V) :=
  match m with
  | [] => [(k, v)]
  | (k', v') :: m' =>
      if String.eqb k' k then (k, v) :: m' else (k', v') :: Map_set k v m'
  end.

(** [array.forEach((x, index) => ...)] collecting what each call pushes. *)
Fixpoint forEach_index {A B : Type} (f : A -> nat -> list B)
    (l : list A) (index : nat) : list B :=
  match l with
  | [] => []
  | a :: l' => f a index ++ forEach_index f l' (S index)
  end.

(** [articles[t]]: [None] is [undefined], whose property read throws. *)
Definition lookup_article {P : Type} (arts : list (KeywordObject P)) (t : Z)
  : option (KeywordObject P) :=
  if t <? 0 then None else nth_error arts (Z.to_nat t).

Fixpoint mapM {A B : Type} (f : A -> option B) (l : list A)
  : option (list B) :=
  match l with
  | [] => Some []
  | a :: l' =>
      match f a with
      | None => None
      | Some b =>
          match mapM f l' with
          | None => None
          | Some bs => Some (b :: bs)
          end
      end
  end.

(** ** Stages that do not look inside a post *)

Section Topics.

Context {host : Host}.
Variable P : Type.
Variable props : InfoHubv3Props P.
Variable win : Window.

Definition showInfoHub : bool :=
  if negb (canUseDOM win) then false
  else match URLSearchParams_get (search win) "ih" with
       | Some ih => if String.eqb ih "0" then false else true
       | None => true
       end.

(** The list [buildKeywordList] hands to [searchCurrentURL]. *)
Definition keywordList : list KeywordInfoObject :=
  forEach_index
    (fun article index =>
       let keywords := map k_editorItemTitle (keywords article) in
       map (fun keyword =>
              {| keyword := toLowerCase keyword; topic := Z.of_nat index |})
           keywords)
    (articles props) 0%nat.

Definition currentURL : string :=
  toLowerCase (pathname win ++ search win)%string.

Definition topicBuilder (kl : list KeywordInfoObject) : list Z :=
  filter (fun topicNumber => negb (topicNumber =? -1))
    (map (fun kw => if includes currentURL (keyword kw) then topic kw else -1)
         kl).

(** Duplicate topic matches removed. *)
Definition finalTopics (kl : list KeywordInfoObject) : list Z :=
  Set_of (topicBuilder kl).

(** [a.priority > b.priority], a boolean, converted to a number by the
    sort: [true] is 1 and [false] is 0. *)
Definition comparisonFunction (a b : TopicAndPriority) : Z :=
  if tp_priority a >? tp_priority b then 1 else 0.

Definition unsortedTopics (ft : list Z) : option (list TopicAndPriority) :=
  mapM (fun t =>
          match lookup_article (articles props) t with
          | Some article =>
              Some {| tp_topic := t; tp_priority := topicType article |}
          | None => None
          end) ft.

Definition sortedFinalTopics (ft : list Z) : option (list Z) :=
  match unsortedTopics ft with
  | Some unsorted =>
      Some (map tp_topic
              (Array_sort TopicAndPriority comparisonFunction unsorted))
  | None => None
  end.

(** The [reduce] of [buildPosts]: the accumulator extended by the posts
    of each sorted topic in turn. *)
Definition postBuilder (sorted : list Z) : option (list P) :=
  fold_left
    (fun accumulator current =>
       match accumulator with
       | Some acc =>
           match lookup_article (articles props) current with
           | Some article =>
               let currentPostList := posts article in
               Some (acc ++ currentPostList)
           | None => None
           end
       | None => None
       end)
    sorted (Some []).

Definition priorityWithArticles (pb : list P) : list P :=
  priority props ++ pb.

(** The device decided from the viewport width in [searchCurrentURL]. *)
Definition deviceOf : Device :=
  if innerWidth win >=? 1026 then desktop else mobile.

(** [buildRender]: assigning a smaller [length] to the array keeps its
    first elements. *)
Definition truncated (d : Device) (uniquePostArray : list P) : list P :=
  let numberOfPosts := List.length uniquePostArray in
  let a1 :=
    match d with
    | desktop =>
        if (maximumDesktopPosts <? numberOfPosts)%nat
        then firstn maximumDesktopPosts uniquePostArray
        else uniquePostArray
    | mobile => uniquePostArray
    end in
  match d with
  | mobile =>
      if (maximumMobilePosts <? numberOfPosts)%nat
      then firstn maximumMobilePosts a1
      else a1
  | desktop => a1
  end.

(** What the component returns: [None] is the empty fragment, [Some ps] the
    section listing [ps]. *)
Definition render (st : HubState P) : option (list P) :=
  if negb showInfoHub then None
  else if loading st then None
  else if (List.length (postsState st) =? 0)%nat then None
  else if (List.length (postsState st) =? activePriorityPosts st)%nat then None
  else Some (postsState st).

End Topics.

Arguments showInfoHub {host} win.
Arguments keywordList {host P} props.
Arguments currentURL {host} win.
Arguments topicBuilder {host} win kl.
Arguments finalTopics {host} win kl.
Arguments unsortedTopics {P} props ft.
Arguments sortedFinalTopics {host P} props ft.
Arguments postBuilder {P} props sorted.
Arguments priorityWithArticles {P} props pb.
Arguments truncated {P} d uniquePostArray.
Arguments render {host P} win st.

(** ** The component over post values

    Every array element is the post object itself: enough wherever posts
    are only read or copied. *)

Section InfoHubv3.

Context {host : Host}.
Variable props : InfoHubv3Props PostObject.
Variable win : Window.

Definition countActivePriority : nat :=
  fold_left (fun accumulator post =>
               (accumulator + (if active post then 1 else 0))%nat)
            (priority props) 0%nat.

Definition set_active (b : bool) (post : PostObject) : PostObject :=
  {| startDate := startDate post; active := b;
     p_editorItemTitle := p_editorItemTitle post;
     image := image post; url := url post |}.

(** The body of the [map] in [removeInactivePosts]: a copy of the post
    whose [active] is overwritten when [Date.parse] gave a truthy number
    (neither NaN nor 0). *)
Definition tempPost (rightNow : Z) (post : PostObject) : PostObject :=
  match Date_parse (startDate post) with
  | Some startDate =>
      if startDate =? 0 then post
      else
        let notYetActive := startDate >? rightNow in
        set_active (if notYetActive then false else true) post
  | None => post
  end.

Definition postsWithInactive (rightNow : Z) (pb : list PostObject)
  : list PostObject :=
  map (tempPost rightNow) pb.

Definition activePosts (rightNow : Z) (pb : list PostObject)
  : list PostObject :=
  filter active (postsWithInactive rightNow pb).

Definition postMap (ap : list PostObject) : list (string * PostObject) :=
  fold_left (fun m post => Map_set (p_editorItemTitle post) post m) ap [].

Definition uniquePosts (ap : list PostObject) : list PostObject :=
  map snd (postMap ap).

(** The call chain, last callee first.  [None] is an uncaught TypeError. *)

Definition buildRender (uniquePostArray : list PostObject)
    (st : HubState PostObject) : HubState PostObject :=
  setLoading false (setPosts (truncated (device st) uniquePostArray) st).

Definition removeDuplicatePosts (ap : list PostObject)
    (st : HubState PostObject) : HubState PostObject :=
  buildRender (uniquePosts ap) st.

Definition removeInactivePosts (pb : list PostObject)
    (st : HubState PostObject) : HubState PostObject :=
  let rightNow := Date_now win in
  removeDuplicatePosts (activePosts rightNow pb) st.

Definition buildPosts (sorted : list Z) (st : HubState PostObject)
  : option (HubState PostObject) :=
  match postBuilder props sorted with
  | Some pb =>
      Some (removeInactivePosts (priorityWithArticles props pb)
              (setActivePriorityPosts countActivePriority st))
  | None => None
  end.

Definition sortTopics (ft : list Z) (st : HubState PostObject)
  : option (HubState PostObject) :=
  match sortedFinalTopics props ft with
  | Some sorted => buildPosts sorted st
  | None => None
  end.

Definition searchCurrentURL (kl : list KeywordInfoObject)
    (st : HubState PostObject) : option (HubState PostObject) :=
  if negb (canUseDOM win) then Some st
  else
    match topicBuilder win kl with
    | [] => Some (setLoading false st)
    | _ :: _ =>
        let ft := finalTopics win kl in
        sortTopics ft (setDevice (deviceOf win) st)
    end.

Definition buildKeywordList (st : HubState PostObject)
  : option (HubState PostObject) :=
  searchCurrentURL (keywordList props) st.

Definition resetInfoHub (st : HubState PostObject)
  : option (HubState PostObject) :=
  buildKeywordList (setPosts [] (setLoading true st)).

Definition messageHandler (eventName : string) (st : HubState PostObject)
  : option (HubState PostObject) :=
  if negb (showInfoHub win) then Some st
  else if String.eqb eventName "ebs-infohub-run" then resetInfoHub st
  else Some st.

End InfoHubv3.

Arguments countActivePriority props : clear implicits.
Arguments uniquePosts ap : clear implicits.
Arguments postMap ap : clear implicits.

(** ** The component over a store of post objects

    Arrays hold addresses and post objects live in a store, so that a
    write through one reference is seen through every other.  The object
    spread [{ ...post }] allocates; [tempPost.active = ...] writes.  The
    arrays of the configuration are only read and spread into new arrays
    (the one array the component resizes is the new one built from the
    [Map]), so arrays stay values. *)

Module Store.

Definition store := list PostObject.

Definition nullPost : PostObject :=
  {| startDate := EmptyString; active := false;
     p_editorItemTitle := EmptyString; image := EmptyString;
     url := EmptyString |}.

Definition load (h : store) (l : nat) : PostObject := nth l h nullPost.

Fixpoint write_active (l : nat) (b : bool) (h : store) : store :=
  match h, l with
  | [], _ => []
  | post :: h', O => set_active b post :: h'
  | post :: h', S l' => post :: write_active l' b h'
  end.

(** [{ ...post }]: a new object with the fields of [post]. *)
Definition spread (post : PostObject) (h : store) : nat * store :=
  (List.length h, h ++ [post]).

Section Component.

Context {host : Host}.
Variable props : InfoHubv3Props nat.
Variable win : Window.

Definition countActivePriority (h : store) : nat :=
  fold_left (fun accumulator post =>
               (accumulator + (if active (load h post) then 1 else 0))%nat)
            (priority props) 0%nat.

Definition tempPost (rightNow : Z) (post : nat) (h : store) : nat * store :=
  let (tempPost, h1) := spread (load h post) h in
  match Date_parse (startDate (load h1 post)) with
  | Some startDate =>
      if startDate =? 0 then (tempPost, h1)
      else
        let notYetActive := startDate >? rightNow in
        (tempPost,
         write_active tempPost (if notYetActive then false else true) h1)
  | None => (tempPost, h1)
  end.

Fixpoint postsWithInactive (rightNow : Z) (pb : list nat) (h : store)
  : list nat * store :=
  match pb with
  | [] => ([], h)
  | post :: rest =>
      let (t, h1) := tempPost rightNow post h in
      let (ts, h2) := postsWithInactive rightNow rest h1 in
      (t :: ts, h2)
  end.

Definition activePosts (rightNow : Z) (pb : list nat) (h : store)
  : list nat * store :=
  let (pwi, h1) := postsWithInactive rightNow pb h in
  (filter (fun post => active (load h1 post)) pwi, h1).

Definition postMap (ap : list nat) (h : store) : list (string * nat) :=
  fold_left (fun m post => Map_set (p_editorItemTitle (load h post)) post m)
            ap [].

Definition uniquePosts (ap : list nat) (h : store) : list nat :=
  map snd (postMap ap h).

Definition buildRender (uniquePostArray : list nat) (st : HubState nat)
  : HubState nat :=
  setLoading false (setPosts (truncated (device st) uniquePostArray) st).

Definition removeDuplicatePosts (ap : list nat) (st : HubState nat)
    (h : store) : HubState nat :=
  buildRender (uniquePosts ap h) st.

Definition removeInactivePosts (pb : list nat) (st : HubState nat)
    (h : store) : HubState nat * store :=
  let rightNow := Date_now win in
  let (ap, h1) := activePosts rightNow pb h in
  (removeDuplicatePosts ap st h1, h1).

Definition buildPosts (sorted : list Z) (st : HubState nat) (h : store)
  : option (HubState nat * store) :=
  match postBuilder props sorted with
  | Some pb =>
      Some (removeInactivePosts (priorityWithArticles props pb)
              (setActivePriorityPosts (countActivePriority h) st) h)
  | None => None
  end.

Definition sortTopics (ft : list Z) (st : HubState nat) (h : store)
  : option (HubState nat * store) :=
  match sortedFinalTopics props ft with
  | Some sorted => buildPosts sorted st h
  | None => None
  end.

Definition searchCurrentURL (kl : list KeywordInfoObject)
    (st : HubState nat) (h : store) : option (HubState nat * store) :=
  if negb (canUseDOM win) then Some (st, h)
  else
    match topicBuilder win kl with
    | [] => Some (setLoading false st, h)
    | _ :: _ =>
        let ft := finalTopics win kl in
        sortTopics ft (setDevice (deviceOf win) st) h
    end.

Definition buildKeywordList (st : HubState nat) (h : store)
  : option (HubState nat * store) :=
  searchCurrentURL (keywordList props) st h.

Definition resetInfoHub (st : HubState nat) (h : store)
  : option (HubState nat * store) :=
  buildKeywordList (setPosts [] (setLoading true st)) h.

Definition messageHandler (eventName : string) (st : HubState nat)
    (h : store) : option (HubState nat * store) :=
  if negb (showInfoHub win) then Some (st, h)
  else if String.eqb eventName "ebs-infohub-run" then resetInfoHub st h
  else Some (st, h).

End Component.

(** Reading a configuration and a state through the store. *)

Definition deref_article (h : store) (a : KeywordObject nat)
  : KeywordObject PostObject :=
  {| a_editorItemTitle := a_editorItemTitle a; keywords := keywords a;
     topicType := topicType a; posts := map (load h) (posts a) |}.

Definition deref_props (h : store) (props : InfoHubv3Props nat)
  : InfoHubv3Props PostObject :=
  {| titleText := titleText props;
     articles := map (deref_article h) (articles props);
     priority := map (load h) (priority props) |}.

Definition deref_state (h : store) (st : HubState nat)
  : HubState PostObject :=
  {| loading := loading st; postsState := map (load h) (postsState st);
     device := device st; activePriorityPosts := activePriorityPosts st |}.

(** Every address the configuration holds is allocated. *)
Definition allocated (h : store) (props : InfoHubv3Props nat) : Prop :=
  Forall (fun l => (l < List.length h)%nat) (priority props)
  /\ Forall (fun a => Forall (fun l => (l < List.length h)%nat) (posts a))
            (articles props).

End Store.

(** ** A reference host

    Enough of an engine to run the pipeline: ASCII lower-casing, date-only
    ISO strings for [Date.parse], a query-string reader without percent
    decoding, and the sort of arrays below 64 elements as V8's TimSort does
    it (one run detected, the rest placed by binary insertion). *)

Module Engine.

Definition lower_ascii (c : ascii) : ascii :=
  let n := nat_of_ascii c in
  if ((65 <=? n) && (n <=? 90))%nat then ascii_of_nat (n + 32) else c.

Fixpoint lower (s : string) : string :=
  match s with
  | EmptyString => EmptyString
  | String c s' => String (lower_ascii c) (lower s')
  end.

Definition digit (c : ascii) : option Z :=
  let n := Z.of_nat (nat_of_ascii c) in
  if (48 <=? n) && (n <=? 57) then Some (n - 48) else None.

Definition leap (y : Z) : bool :=
  ((y mod 4 =? 0) && negb (y mod 100 =? 0)) || (y mod 400 =? 0).

Definition days_in_month (y m : Z) : Z :=
  if m =? 2 then (if leap y then 29 else 28)
  else if (m =? 4) || (m =? 6) || (m =? 9) || (m =? 11) then 30 else 31.

(** Days between 1970-01-01 and the given civil date. *)
Definition days_from_civil (y m d : Z) : Z :=
  let y' := if m <=? 2 then y - 1 else y in
  let era := y' / 400 in
  let yoe := y' - era * 400 in
  let mp := (m + 9) mod 12 in
  let doy := (153 * mp + 2) / 5 + d - 1 in
  let doe := yoe * 365 + yoe / 4 - yoe / 100 + doy in
  era * 146097 + doe - 719468.

Definition num2 (a b : ascii) : option Z :=
  match digit a, digit b with
  | Some x, Some y => Some (10 * x + y)
  | _, _ => None
  end.

(** [YYYY-MM-DD] to milliseconds since the epoch (UTC midnight). *)
Definition parse_date (s : string) : option Z :=
  match s with
  | String y1 (String y2 (String y3 (String y4 (String "-"
      (String m1 (String m2 (String "-"
        (String d1 (String d2 EmptyString))))))))) =>
      match num2 y1 y2, num2 y3 y4, num2 m1 m2, num2 d1 d2 with
      | Some yh, Some yl, Some m, Some d =>
          let y := 100 * yh + yl in
          if (1 <=? m) && (m <=? 12) && (1 <=? d) && (d <=? days_in_month y m)
          then Some (days_from_civil y m d * 86400000)
          else None
      | _, _, _, _ => None
      end
  | _ => None
  end.

(** Split at the first occurrence of [sep]. *)
Fixpoint split_first (sep : ascii) (s : string) : string * option string :=
  match s with
  | EmptyString => (EmptyString, None)
  | String c s' =>
      if Ascii.eqb c sep then (EmptyString, Some s')
      else let (a, b) := split_first sep s' in (String c a, b)
  end.

Fixpoint split_all (fuel : nat) (sep : ascii) (s : string) : list string :=
  match fuel with
  | O => [s]
  | S fuel' =>
      match split_first sep s with
      | (a, None) => [a]
      | (a, Some rest) => a :: split_all fuel' sep rest
      end
  end.

Definition pairs (q : string) : list (string * string) :=
  let q := match q with
           | String "?" q' => q'
           | _ => q
           end in
  map (fun item =>
         match split_first "=" item with
         | (name, Some value) => (name, value)
         | (name, None) => (name, EmptyString)
         end)
      (filter (fun item => negb (String.eqb item EmptyString))
              (split_all (String.length q) "&" q)).

Definition params_get (q name : string) : option string :=
  match find (fun p => String.eqb (fst p) name) (pairs q) with
  | Some p => Some (snd p)
  | None => None
  end.

Section Sort.

Variable A : Type.
Variable cmp : A -> A -> Z.

(** The initial run: the longest prefix that is weakly ascending, or
    strictly descending, as decided by the first comparison. *)
Fixpoint run_rest (descending : bool) (prev : A) (l : list A)
  : list A * list A :=
  match l with
  | [] => ([], [])
  | x :: l' =>
      let order := cmp x prev in
      if Bool.eqb descending (order <? 0)
      then let (r, rest) := run_rest descending x l' in (x :: r, rest)
      else ([], l)
  end.

Definition count_run (l : list A) : list A * list A :=
  match l with
  | a0 :: a1 :: l' =>
      let descending := cmp a1 a0 <? 0 in
      let (r, rest) := run_rest descending a1 l' in
      let run := a0 :: a1 :: r in
      (if descending then rev run else run, rest)
  | _ => (l, [])
  end.

(** Binary search for the place of [pivot] in [a] between [left] and
    [right]: left of an element only when the comparator is negative. *)
Fixpoint binary_search (fuel : nat) (pivot : A) (a : list A) (left right : nat)
  : nat :=
  match fuel with
  | O => left
  | S fuel' =>
      if (left <? right)%nat then
        let mid := (left + Nat.div2 (right - left))%nat in
        match nth_error a mid with
        | Some x =>
            if cmp pivot x <? 0 then binary_search fuel' pivot a left mid
            else binary_search fuel' pivot a (S mid) right
        | None => left
        end
      else left
  end.

Definition insert_at (k : nat) (x : A) (l : list A) : list A :=
  firstn k l ++ x :: skipn k l.

Definition place (sorted : list A) (pivot : A) : list A :=
  insert_at (binary_search (S (List.length sorted)) pivot sorted 0
               (List.length sorted)) pivot sorted.

Definition sort (l : list A) : list A :=
  let (run, rest) := count_run l in
  fold_left place rest run.

Lemma run_rest_app (descending : bool) (l : list A) :
  forall prev, fst (run_rest descending prev l)
               ++ snd (run_rest descending prev l) = l.
Proof.
  induction l as [|x l IH]; intros prev; simpl; [reflexivity|].
  destruct (Bool.eqb descending (cmp x prev <? 0)); simpl; [|reflexivity].
  specialize (IH x). destruct (run_rest descending x l) as [r rest].
  simpl in *. now rewrite IH.
Qed.

Lemma count_run_perm (l : list A) :
  Permutation (fst (count_run l) ++ snd (count_run l)) l.
Proof.
  destruct l as [|a0 [|a1 l]]; simpl; try (rewrite ?app_nil_r; reflexivity).
  pose proof (run_rest_app (cmp a1 a0 <? 0) l a1) as H.
  destruct (run_rest (cmp a1 a0 <? 0) a1 l) as [r rest]. simpl in *.
  apply Permutation_trans with ((a0 :: a1 :: r) ++ rest).
  - apply Permutation_app_tail.
    destruct (cmp a1 a0 <? 0); [symmetry; apply Permutation_rev|reflexivity].
  - simpl. now rewrite H.
Qed.

Lemma insert_at_perm (k : nat) (x : A) (l : list A) :
  Permutation (insert_at k x l) (x :: l).
Proof.
  unfold insert_at. symmetry.
  rewrite <- (firstn_skipn k l) at 1. apply Permutation_middle.
Qed.

Lemma fold_place_perm (rest : list A) :
  forall run, Permutation (fold_left place rest run) (run ++ rest).
Proof.
  induction rest as [|x rest IH]; intros run; simpl.
  - now rewrite app_nil_r.
  - rewrite IH. unfold place. rewrite insert_at_perm.
    simpl. apply Permutation_middle.
Qed.

Lemma sort_perm (l : list A) : Permutation (sort l) l.
Proof.
  unfold sort. pose proof (count_run_perm l) as H.
  destruct (count_run l) as [run rest]. simpl in H.
  now rewrite fold_place_perm.
Qed.

End Sort.

Lemma lower_empty : lower EmptyString = EmptyString.
Proof. reflexivity. Qed.

#[export] Instance host : Host := {|
  toLowerCase := lower;
  toLowerCase_empty := lower_empty;
  Date_parse := parse_date;
  URLSearchParams_get := params_get;
  Array_sort := sort;
  Array_sort_perm := sort_perm
|}.

End Engine.


(** ** Substrings *)

Lemma prefix_app (k : string) :
  forall s, String.prefix k s = true <-> exists b, s = (k ++ b)%string.
Proof.
  induction k as [|c k IH]; intros s; simpl.
  - split; [intros _; now exists s|].
    intros _. now destruct s.
  - destruct s as [|d s]; simpl.
    + split; [discriminate|]. intros [b Hb]. discriminate.
    + destruct (ascii_dec c d) as [->|Hcd].
      * rewrite IH. split; intros [b Hb]; exists b; congruence.
      * split; [discriminate|]. intros [b Hb]. congruence.
Qed.

Lemma includes_eq (s k : string) :
  includes s k =
  if String.prefix k s then true
  else match s with
       | EmptyString => false
       | String _ s' => includes s' k
       end.
Proof. now destruct s. Qed.

Lemma includes_spec (s k : string) : includes s k = true <-> Substring k s.
Proof.
  split.
  - induction s as [|c s IH]; rewrite includes_eq;
      destruct (String.prefix k _) eqn:Hp; intros H;
      try (apply prefix_app in Hp as [b Hb]; now exists EmptyString, b).
    + discriminate.
    + destruct (IH H) as (a & b & ->). now exists (String c a), b.
  - intros (a & b & ->). induction a as [|c a IH]; rewrite includes_eq.
    + replace (String.prefix k (EmptyString ++ k ++ b)) with true;
        [reflexivity|].
      symmetry. apply prefix_app. now exists b.
    + destruct (String.prefix k _); [reflexivity|]. exact IH.
Qed.

Lemma includes_empty (s : string) : includes s EmptyString = true.
Proof. apply includes_spec. now exists EmptyString, s. Qed.

(** ** The insertion-ordered set *)

Lemma Set_add_In (x y : Z) (s : list Z) :
  In y (Set_add x s) <-> y = x \/ In y s.
Proof.
  unfold Set_add. destruct (existsb (Z.eqb x) s) eqn:He.
  - apply existsb_exists in He as (z & Hz & Hxz).
    apply Z.eqb_eq in Hxz. subst z.
    split; [now right|]. intros [->|H]; assumption.
  - rewrite in_app_iff. simpl. intuition.
Qed.

Lemma fold_Set_add_In (l : list Z) :
  forall acc y,
    In y (fold_left (fun s x => Set_add x s) l acc) <-> In y acc \/ In y l.
Proof.
  induction l as [|x l IH]; intros acc y; simpl.
  - intuition.
  - rewrite IH, Set_add_In. intuition.
Qed.

Lemma Set_of_In (l : list Z) (y : Z) : In y (Set_of l) <-> In y l.
Proof. unfold Set_of. rewrite fold_Set_add_In. simpl. intuition. Qed.

Lemma Set_of_nil (l : list Z) : Set_of l = [] <-> l = [].
Proof.
  split; [|now intros ->].
  destruct l as [|x l]; [reflexivity|]. intros H.
  assert (Hx : In x (Set_of (x :: l))) by (apply Set_of_In; now left).
  rewrite H in Hx. destruct Hx.
Qed.

(** ** The keyword index and the matcher *)

Lemma forEach_index_In {A B : Type} (f : A -> nat -> list B) (l : list A) :
  forall i0 b,
    In b (forEach_index f l i0) <->
    exists j a, nth_error l j = Some a /\ In b (f a (i0 + j)%nat).
Proof.
  induction l as [|a l IH]; intros i0 b; simpl.
  - split; [intros []|]. intros (j & a & H & _). now destruct j.
  - rewrite in_app_iff, IH. split.
    + intros [H|(j & a' & Hj & H)].
      * exists 0%nat, a. now rewrite Nat.add_0_r.
      * exists (S j), a'. now rewrite Nat.add_succ_r.
    + intros (j & a' & Hj & H). destruct j as [|j]; simpl in Hj.
      * injection Hj as <-. left. now rewrite Nat.add_0_r in H.
      * right. exists j, a'. now rewrite Nat.add_succ_r in H.
Qed.

Section Matcher.

Context {host : Host}.
Variable P : Type.
Variable props : InfoHubv3Props P.
Variable win : Window.

Lemma keywordList_In (kw : KeywordInfoObject) :
  In kw (keywordList props) <->
  exists i article k,
    nth_error (articles props) i = Some article
    /\ In k (keywords article)
    /\ kw = {| keyword := toLowerCase (k_editorItemTitle k);
               topic := Z.of_nat i |}.
Proof.
  unfold keywordList. rewrite forEach_index_In. split.
  - intros (j & a & Hj & H). rewrite map_map in H.
    apply in_map_iff in H as (k & <- & Hk). now exists j, a, k.
  - intros (i & a & k & Hi & Hk & ->). exists i, a. split; [assumption|].
    rewrite map_map. apply in_map_iff. now exists k.
Qed.

Lemma topicBuilder_In (kl : list KeywordInfoObject) (t : Z) :
  In t (topicBuilder win kl) <->
  t <> -1 /\
  exists kw, In kw kl /\ includes (currentURL win) (keyword kw) = true
             /\ topic kw = t.
Proof.
  unfold topicBuilder. rewrite filter_In, in_map_iff, negb_true_iff, Z.eqb_neq.
  split.
  - intros [(kw & H & Hin) Hne]. split; [assumption|]. exists kw.
    destruct (includes (currentURL win) (keyword kw)); [auto|congruence].
  - intros [Hne (kw & Hin & Hinc & Ht)]. split; [|assumption].
    exists kw. now rewrite Hinc.
Qed.

(** The match set, by topic position and keyword. *)
Lemma finalTopics_In (t : Z) :
  In t (finalTopics win (keywordList props)) <->
  exists i article k,
    t = Z.of_nat i
    /\ nth_error (articles props) i = Some article
    /\ In k (keywords article)
    /\ Substring (toLowerCase (k_editorItemTitle k)) (currentURL win).
Proof.
  unfold finalTopics. rewrite Set_of_In, topicBuilder_In. split.
  - intros [_ (kw & Hin & Hinc & Ht)].
    apply keywordList_In in Hin as (i & a & k & Hi & Hk & ->).
    simpl in *. exists i, a, k. rewrite <- includes_spec. auto.
  - intros (i & a & k & -> & Hi & Hk & Hs). split; [lia|].
    exists {| keyword := toLowerCase (k_editorItemTitle k);
              topic := Z.of_nat i |}.
    simpl. rewrite keywordList_In, includes_spec.
    split; [now exists i, a, k|auto].
Qed.

Lemma finalTopics_lookup (t : Z) :
  In t (finalTopics win (keywordList props)) ->
  exists article, lookup_article (articles props) t = Some article.
Proof.
  intros H. apply finalTopics_In in H as (i & a & k & -> & Hi & _).
  exists a. unfold lookup_article.
  destruct (Z.ltb_spec (Z.of_nat i) 0); [lia|]. now rewrite Nat2Z.id.
Qed.

End Matcher.

(** ** The ranker and the reduce never throw on matched topics *)

Section Ranker.

Context {host : Host}.
Variable P : Type.
Variable props : InfoHubv3Props P.
Variable win : Window.

Definition found (t : Z) : Prop :=
  exists article, lookup_article (articles props) t = Some article.

Lemma unsortedTopics_some (ft : list Z) :
  Forall found ft ->
  exists unsorted,
    unsortedTopics props ft = Some unsorted /\ map tp_topic unsorted = ft.
Proof.
  unfold unsortedTopics. induction 1 as [|t ft [a Ha] _ (u & Hu & Hm)]; simpl.
  - now exists [].
  - rewrite Ha, Hu. eexists. split; [reflexivity|]. simpl. now rewrite Hm.
Qed.

Lemma sortedFinalTopics_some (ft : list Z) :
  Forall found ft ->
  exists sorted,
    sortedFinalTopics props ft = Some sorted /\ Permutation sorted ft.
Proof.
  intros H. destruct (unsortedTopics_some ft H) as (u & Hu & Hm).
  unfold sortedFinalTopics. rewrite Hu. eexists. split; [reflexivity|].
  rewrite <- Hm. apply Permutation_map. apply Array_sort_perm.
Qed.

(** The posts of the listed topics, one topic after the other. *)
Definition postsOf (sorted : list Z) : list P :=
  flat_map (fun t => match lookup_article (articles props) t with
                     | Some article => posts article
                     | None => []
                     end) sorted.

Lemma postBuilder_fold (sorted : list Z) :
  Forall found sorted ->
  forall acc,
    fold_left
      (fun accumulator current =>
         match accumulator with
         | Some acc =>
             match lookup_article (articles props) current with
             | Some article => Some (acc ++ posts article)
             | None => None
             end
         | None => None
         end) sorted (Some acc)
    = Some (acc ++ postsOf sorted).
Proof.
  induction 1 as [|t l [a Ha] _ IH]; intros acc; simpl.
  - now rewrite app_nil_r.
  - rewrite Ha, IH. now rewrite <- app_assoc.
Qed.

Lemma postBuilder_some (sorted : list Z) :
  Forall found sorted -> postBuilder props sorted = Some (postsOf sorted).
Proof. intros H. unfold postBuilder. now rewrite postBuilder_fold. Qed.

Lemma matched_found : Forall found (finalTopics win (keywordList props)).
Proof.
  apply Forall_forall. intros t Ht. now apply finalTopics_lookup in Ht.
Qed.

(** The topics the ranker hands to [buildPosts]; [[]] only stands in for a
    throw, which [ranked_some] rules out. *)
Definition rankedTopics : list Z :=
  match sortedFinalTopics props (finalTopics win (keywordList props)) with
  | Some sorted => sorted
  | None => []
  end.

Lemma ranked_some :
  sortedFinalTopics props (finalTopics win (keywordList props))
  = Some rankedTopics
  /\ Permutation rankedTopics (finalTopics win (keywordList props))
  /\ postBuilder props rankedTopics = Some (postsOf rankedTopics).
Proof.
  destruct (sortedFinalTopics_some _ matched_found) as (sorted & Hs & Hp).
  unfold rankedTopics. rewrite Hs. repeat split; [assumption|].
  apply postBuilder_some. apply Forall_forall. intros t Ht.
  pose proof matched_found as Hf. rewrite Forall_forall in Hf.
  apply Hf. now apply (Permutation_in _ Hp).
Qed.

End Ranker.

Arguments postsOf {P} props sorted.
Arguments rankedTopics {host P} props win.

(** ** One run of the pipeline, stage by stage *)

Section Run.

Context {host : Host}.
Variable props : InfoHubv3Props PostObject.
Variable win : Window.

(** The list [removeDuplicatePosts] hands to [buildRender]. *)
Definition assembledPosts : list PostObject :=
  uniquePosts
    (activePosts (Date_now win)
       (priorityWithArticles props (postsOf props (rankedTopics props win)))).

Lemma resetInfoHub_no_DOM (st : HubState PostObject) :
  canUseDOM win = false ->
  resetInfoHub props win st = Some (setPosts [] (setLoading true st)).
Proof.
  intros H. unfold resetInfoHub, buildKeywordList, searchCurrentURL.
  now rewrite H.
Qed.

Lemma resetInfoHub_no_match (st : HubState PostObject) :
  canUseDOM win = true ->
  finalTopics win (keywordList props) = [] ->
  resetInfoHub props win st
  = Some {| loading := false; postsState := []; device := device st;
            activePriorityPosts := activePriorityPosts st |}.
Proof.
  intros H Hm. unfold finalTopics in Hm. apply (proj1 (Set_of_nil _)) in Hm.
  unfold resetInfoHub, buildKeywordList, searchCurrentURL.
  now rewrite H, Hm.
Qed.

Lemma resetInfoHub_match (st : HubState PostObject) :
  canUseDOM win = true ->
  finalTopics win (keywordList props) <> [] ->
  resetInfoHub props win st
  = Some {| loading := false;
            postsState := truncated (deviceOf win) assembledPosts;
            device := deviceOf win;
            activePriorityPosts := countActivePriority props |}.
Proof.
  intros H Hm.
  unfold resetInfoHub, buildKeywordList, searchCurrentURL. rewrite H. simpl.
  destruct (topicBuilder win (keywordList props)) eqn:Htb.
  - exfalso. apply Hm. unfold finalTopics. now rewrite Htb.
  - unfold sortTopics.
    destruct (ranked_some PostObject props win) as (Hs & _ & Hp).
    rewrite Hs. unfold buildPosts. rewrite Hp. reflexivity.
Qed.


End Run.

(** ** Deduplication by title *)

Lemma existsb_map {A B : Type} (f : B -> bool) (g : A -> B) (l : list A) :
  existsb f (map g l) = existsb (fun x => f (g x)) l.
Proof. induction l as [|a l IH]; simpl; [reflexivity|]. now rewrite IH. Qed.

Lemma existsb_ext {A : Type} (f g : A -> bool) (l : list A) :
  (forall x, f x = g x) -> existsb f l = existsb g l.
Proof.
  intros H. induction l as [|a l IH]; simpl; [reflexivity|].
  now rewrite H, IH.
Qed.

Definition sameTitle (p q : PostObject) : bool :=
  String.eqb (p_editorItemTitle p) (p_editorItemTitle q).

(** First-seen-wins deduplication, as the specification words it: a post
    is kept when no earlier post has its title. *)
Fixpoint firstSeen (l : list PostObject) : list PostObject :=
  match l with
  | [] => []
  | p :: l' => p :: filter (fun q => negb (sameTitle p q)) (firstSeen l')
  end.

(** The last post of [l] with the title of [p]. *)
Definition lastWithTitle (l : list PostObject) (p : PostObject)
  : PostObject :=
  match find (sameTitle p) (rev l) with
  | Some q => q
  | None => p
  end.

(** One [Map.set] seen on the values alone. *)
Fixpoint setPost (p : PostObject) (u : list PostObject) : list PostObject :=
  match u with
  | [] => [p]
  | q :: u' => if sameTitle q p then p :: u' else q :: setPost p u'
  end.

Definition tag (p : PostObject) : string * PostObject :=
  (p_editorItemTitle p, p).

Lemma sameTitle_refl (p : PostObject) : sameTitle p p = true.
Proof. apply String.eqb_refl. Qed.

Lemma sameTitle_sym (p q : PostObject) : sameTitle p q = sameTitle q p.
Proof. apply String.eqb_sym. Qed.

Lemma sameTitle_eq (p q : PostObject) :
  sameTitle p q = true <-> p_editorItemTitle p = p_editorItemTitle q.
Proof. apply String.eqb_eq. Qed.

Lemma sameTitle_trans (p q r : PostObject) :
  sameTitle p q = true -> sameTitle p r = sameTitle q r.
Proof. unfold sameTitle. intros H. apply String.eqb_eq in H. now rewrite H. Qed.

Lemma Map_set_tag (p : PostObject) (u : list PostObject) :
  Map_set (p_editorItemTitle p) p (map tag u) = map tag (setPost p u).
Proof.
  induction u as [|q u IH]; simpl; [reflexivity|].
  fold (sameTitle q p). destruct (sameTitle q p); simpl; [reflexivity|].
  now rewrite IH.
Qed.

Lemma postMap_tag (l : list PostObject) :
  forall u,
    fold_left (fun m post => Map_set (p_editorItemTitle post) post m) l
              (map tag u)
    = map tag (fold_left (fun u p => setPost p u) l u).
Proof.
  induction l as [|p l IH]; intros u; simpl; [reflexivity|].
  now rewrite Map_set_tag, IH.
Qed.

Lemma uniquePosts_fold (l : list PostObject) :
  uniquePosts l = fold_left (fun u p => setPost p u) l [].
Proof.
  unfold uniquePosts, postMap.
  change (@nil (string * PostObject)) with (map tag []).
  rewrite (postMap_tag l []).
  rewrite map_map. simpl. apply map_id.
Qed.

Lemma uniquePosts_snoc (l : list PostObject) (p : PostObject) :
  uniquePosts (l ++ [p]) = setPost p (uniquePosts l).
Proof. rewrite !uniquePosts_fold. now rewrite fold_left_app. Qed.

Lemma firstSeen_In (l : list PostObject) (q : PostObject) :
  In q (firstSeen l) -> In q l.
Proof.
  revert q. induction l as [|p l IH]; intros q; simpl; [auto|].
  intros [H|H]; [now left|]. apply filter_In in H as [H _]. right. auto.
Qed.

Lemma firstSeen_exists (l : list PostObject) (p : PostObject) :
  existsb (sameTitle p) (firstSeen l) = existsb (sameTitle p) l.
Proof.
  induction l as [|a l IH]; simpl; [reflexivity|].
  destruct (sameTitle p a) eqn:Hpa; simpl; [reflexivity|].
  rewrite <- IH. clear IH.
  induction (firstSeen l) as [|b u IHu]; simpl; [reflexivity|].
  destruct (sameTitle a b) eqn:Hab; simpl.
  - rewrite IHu. rewrite sameTitle_sym in Hpa.
    rewrite (sameTitle_sym p b), <- (sameTitle_trans a b p Hab), Hpa.
    reflexivity.
  - now rewrite IHu.
Qed.

Lemma firstSeen_snoc (l : list PostObject) (p : PostObject) :
  firstSeen (l ++ [p])
  = if existsb (sameTitle p) l then firstSeen l else firstSeen l ++ [p].
Proof.
  induction l as [|a l IH]; simpl; [reflexivity|].
  rewrite IH. rewrite (sameTitle_sym p a).
  destruct (sameTitle a p) eqn:Hap; simpl.
  - destruct (existsb (sameTitle p) l); [reflexivity|].
    rewrite filter_app. simpl. rewrite Hap. simpl. now rewrite app_nil_r.
  - destruct (existsb (sameTitle p) l); [reflexivity|].
    rewrite filter_app. simpl. now rewrite Hap.
Qed.

(** No two posts of a first-seen list share a title. *)
Fixpoint distinctTitles (u : list PostObject) : Prop :=
  match u with
  | [] => True
  | p :: u' => existsb (sameTitle p) u' = false /\ distinctTitles u'
  end.

Lemma distinctTitles_filter (f : PostObject -> bool) (u : list PostObject) :
  distinctTitles u -> distinctTitles (filter f u).
Proof.
  induction u as [|p u IH]; simpl; [auto|]. intros [Hp Hu].
  destruct (f p); simpl; [split|]; auto.
  apply not_true_is_false. intros H.
  apply existsb_exists in H as (q & Hq & Hpq).
  apply filter_In in Hq as [Hq _].
  assert (existsb (sameTitle p) u = true)
    by (apply existsb_exists; now exists q).
  congruence.
Qed.

Lemma firstSeen_distinct (l : list PostObject) : distinctTitles (firstSeen l).
Proof.
  induction l as [|p l IH]; simpl; [exact I|]. split.
  - apply not_true_is_false. intros H.
    apply existsb_exists in H as (q & Hq & Hpq).
    apply filter_In in Hq as [_ Hq]. now rewrite Hpq in Hq.
  - now apply distinctTitles_filter.
Qed.

Lemma distinctTitles_map (f : PostObject -> PostObject)
    (u : list PostObject) :
  (forall q, p_editorItemTitle (f q) = p_editorItemTitle q) ->
  distinctTitles u -> distinctTitles (map f u).
Proof.
  intros Hf. induction u as [|p u IH]; simpl; [auto|]. intros [Hp Hu].
  split; [|auto]. rewrite existsb_map. rewrite <- Hp.
  apply existsb_ext. intros q. unfold sameTitle. now rewrite !Hf.
Qed.

Lemma setPost_distinct (p : PostObject) (u : list PostObject) :
  distinctTitles u ->
  setPost p u
  = if existsb (sameTitle p) u
    then map (fun q => if sameTitle q p then p else q) u
    else u ++ [p].
Proof.
  induction u as [|q u IH]; simpl; [reflexivity|]. intros [Hq Hu].
  rewrite (sameTitle_sym p q). destruct (sameTitle q p) eqn:Hqp; simpl.
  - f_equal. symmetry. erewrite map_ext_in; [apply map_id|].
    intros r Hr. simpl. destruct (sameTitle r p) eqn:Hrp; [|reflexivity].
    exfalso. assert (existsb (sameTitle q) u = true); [|congruence].
    apply existsb_exists. exists r. split; [assumption|].
    rewrite (sameTitle_trans q p r Hqp). now rewrite sameTitle_sym.
  - rewrite (IH Hu). now destruct (existsb (sameTitle p) u).
Qed.

Lemma lastWithTitle_title (l : list PostObject) (q : PostObject) :
  p_editorItemTitle (lastWithTitle l q) = p_editorItemTitle q.
Proof.
  unfold lastWithTitle. destruct (find (sameTitle q) (rev l)) eqn:Hf;
    [|reflexivity].
  apply find_some in Hf as [_ Hf]. symmetry. now apply sameTitle_eq.
Qed.

Lemma lastWithTitle_snoc (l : list PostObject) (p q : PostObject) :
  lastWithTitle (l ++ [p]) q = if sameTitle q p then p else lastWithTitle l q.
Proof.
  unfold lastWithTitle. rewrite rev_app_distr. simpl.
  now destruct (sameTitle q p).
Qed.

(** What the [Map] leaves: one entry for each title, where the title was
    first seen, holding the last post that carried it. *)
Lemma uniquePosts_char (l : list PostObject) :
  uniquePosts l = map (lastWithTitle l) (firstSeen l).
Proof.
  induction l as [|p l IH] using rev_ind; [reflexivity|].
  rewrite uniquePosts_snoc, IH, firstSeen_snoc.
  rewrite setPost_distinct
    by (apply distinctTitles_map;
        [apply lastWithTitle_title|apply firstSeen_distinct]).
  rewrite existsb_map.
  replace (existsb (fun q => sameTitle p (lastWithTitle l q)) (firstSeen l))
    with (existsb (sameTitle p) l).
  2:{ rewrite <- firstSeen_exists. apply existsb_ext. intros q.
      unfold sameTitle. now rewrite lastWithTitle_title. }
  destruct (existsb (sameTitle p) l) eqn:He.
  - rewrite map_map. apply map_ext. intros q.
    rewrite lastWithTitle_snoc. unfold sameTitle.
    now rewrite lastWithTitle_title.
  - rewrite map_app. simpl. rewrite lastWithTitle_snoc, sameTitle_refl.
    f_equal. apply map_ext_in. intros q Hq. rewrite lastWithTitle_snoc.
    destruct (sameTitle q p) eqn:Hqp; [|reflexivity].
    exfalso. assert (existsb (sameTitle p) l = true); [|congruence].
    apply existsb_exists. exists q. split; [now apply firstSeen_In|].
    now rewrite sameTitle_sym.
Qed.

Lemma find_app {A : Type} (f : A -> bool) (l1 l2 : list A) :
  find f (l1 ++ l2)
  = match find f l1 with
    | Some x => Some x
    | None => find f l2
    end.
Proof.
  induction l1 as [|a l1 IH]; simpl; [reflexivity|]. now destruct (f a).
Qed.

Lemma find_exists {A : Type} (f : A -> bool) (l : list A) :
  existsb f l = true -> exists x, find f l = Some x /\ In x l /\ f x = true.
Proof.
  induction l as [|a l IH]; simpl; [discriminate|].
  destruct (f a) eqn:Hfa; simpl.
  - intros _. exists a. auto.
  - intros H. destruct (IH H) as (x & Hx & Hin & Hfx). exists x. auto.
Qed.

Lemma existsb_rev {A : Type} (f : A -> bool) (l : list A) :
  existsb f (rev l) = existsb f l.
Proof.
  induction l as [|a l IH]; simpl; [reflexivity|].
  rewrite existsb_app, IH. simpl. rewrite orb_false_r. apply orb_comm.
Qed.

(** ** Sample data *)

Module Sample.

Definition post (title link : string) (visible : bool) (start : string)
  : PostObject :=
  {| startDate := start; active := visible; p_editorItemTitle := title;
     image := EmptyString; url := link |}.

Definition topicOf {P : Type} (tier : Z) (kw : string) (ps : list P)
  : KeywordObject P :=
  {| a_editorItemTitle := EmptyString;
     keywords := [ {| k_editorItemTitle := kw |} ];
     topicType := tier; posts := ps |}.

Definition page (path query : string) (width now : Z) : Window :=
  {| canUseDOM := true; pathname := path; search := query;
     innerWidth := width; Date_now := now |}.

(** 2026-11-02 and 3000-01-01, in milliseconds since the epoch. *)
Definition in2026 : Z := 1793577600000.
Definition in3000 : Z := 32503680000000.

Definition pinnedX : PostObject := post "X" "/pinned" true EmptyString.
Definition topicX : PostObject := post "X" "/topic" true EmptyString.
Definition hiddenPast : PostObject := post "Old" "/old" false "2020-01-01".
Definition epochPost : PostObject := post "Epoch" "/e" true "1970-01-01".
Definition launch : PostObject := post "Launch" "/launch" true "2999-01-01".

End Sample.

(** ** Activation *)

Section Activation.

Context {host : Host}.

(** Whether the copy made by [removeInactivePosts] passes its filter. *)
Lemma tempPost_active (rightNow : Z) (post : PostObject) :
  active (tempPost rightNow post)
  = match Date_parse (startDate post) with
    | Some t => if t =? 0 then active post else negb (t >? rightNow)
    | None => active post
    end.
Proof.
  unfold tempPost. destruct (Date_parse (startDate post)) as [t|];
    [|reflexivity].
  destruct (t =? 0); [reflexivity|]. now destruct (t >? rightNow).
Qed.

Lemma activePosts_one (rightNow : Z) (post : PostObject) :
  activePosts rightNow [post]
  = if active (tempPost rightNow post) then [tempPost rightNow post] else [].
Proof. reflexivity. Qed.

Lemma activePosts_app (rightNow : Z) (l1 l2 : list PostObject) :
  activePosts rightNow (l1 ++ l2)
  = activePosts rightNow l1 ++ activePosts rightNow l2.
Proof.
  unfold activePosts, postsWithInactive. now rewrite map_app, filter_app.
Qed.

(** C10: a start date that parses to the epoch instant (timestamp 0) is
    treated like one that does not parse: the post is copied unchanged and
    its own [active] flag alone decides whether it is kept.  For every
    other start date that parses and is not in the future, the flag plays
    no part: the post is kept, marked active, whatever the flag was. *)
Theorem epoch_startDate_leaves_flag_in_charge
    (rightNow : Z) (post : PostObject) :
  (Date_parse (startDate post) = Some 0
   \/ Date_parse (startDate post) = None ->
   tempPost rightNow post = post
   /\ activePosts rightNow [post] = if active post then [post] else [])
  /\ (forall t : Z,
        Date_parse (startDate post) = Some t -> t <= rightNow -> t <> 0 ->
        forall flag : bool,
          activePosts rightNow [set_active flag post]
          = [set_active true post]).
Proof.
  split.
  - intros H.
    assert (Ht : tempPost rightNow post = post).
    { unfold tempPost. destruct H as [-> | ->]; reflexivity. }
    split; [assumption|]. rewrite activePosts_one. now rewrite Ht.
  - intros t Ht Hle Hne flag. rewrite activePosts_one.
    unfold tempPost. simpl. rewrite Ht.
    destruct (Z.eqb_spec t 0) as [|_]; [contradiction|].
    destruct (Z.gtb_spec t rightNow) as [|_]; [lia|]. reflexivity.
Qed.

End Activation.

Lemma epoch_startDate_leaves_flag_in_charge_witness :
  (activePosts (host := Engine.host) Sample.in2026 [Sample.epochPost]
   = [Sample.epochPost])
  /\ (activePosts (host := Engine.host) Sample.in2026
        [set_active false Sample.hiddenPast]
      = [set_active true Sample.hiddenPast]).
Proof.
  split.
  - apply (proj1 (epoch_startDate_leaves_flag_in_charge
                    (host := Engine.host) Sample.in2026 Sample.epochPost)).
    left. reflexivity.
  - apply (proj2 (epoch_startDate_leaves_flag_in_charge
                    (host := Engine.host) Sample.in2026 Sample.hiddenPast)
             1577836800000).
    + reflexivity.
    + vm_compute. discriminate.
    + discriminate.
Defined.

(** C1, at an input where the code departs from it: a post the editor
    switched off ([active] false) whose start date lies in the past is not
    excluded; its copy is switched on and passes the filter. *)
Theorem inactive_post_with_past_startDate_is_kept :
  active Sample.hiddenPast = false
  /\ Date_parse (Host := Engine.host) (startDate Sample.hiddenPast)
     = Some 1577836800000
  /\ activePosts (host := Engine.host) Sample.in2026 [Sample.hiddenPast]
     = [set_active true Sample.hiddenPast].
Proof. repeat split. Qed.

(** ** Deduplication, as the code does it *)

(** C2 as stated fails: of a pinned post and a topic post with one title,
    the entry that survives has the topic post's fields, where first-seen
    deduplication keeps the pinned post. *)
Lemma dedup_keeps_later_fields :
  uniquePosts [Sample.pinnedX; Sample.topicX] = [Sample.topicX]
  /\ firstSeen [Sample.pinnedX; Sample.topicX] = [Sample.pinnedX]
  /\ uniquePosts [Sample.pinnedX; Sample.topicX]
     <> firstSeen [Sample.pinnedX; Sample.topicX].
Proof. repeat split. discriminate. Qed.

(** C2, amended: deduplication keeps one entry for each distinct title, at
    the place where the title first occurred, and the entry holds the
    fields of the last post with that title.  So when a topic post shares
    the title of a pinned post, the entry in the pinned post's place is a
    topic post. *)
Theorem dedup_first_place_last_fields (ap : list PostObject) :
  uniquePosts ap = map (lastWithTitle ap) (firstSeen ap)
  /\ map p_editorItemTitle (uniquePosts ap)
     = map p_editorItemTitle (firstSeen ap)
  /\ (forall (st : HubState PostObject),
        postsState (removeDuplicatePosts ap st)
        = truncated (device st) (map (lastWithTitle ap) (firstSeen ap)))
  /\ (forall (pinned topicPosts : list PostObject) (p : PostObject),
        ap = pinned ++ topicPosts ->
        existsb (sameTitle p) topicPosts = true ->
        exists t,
          In t topicPosts
          /\ p_editorItemTitle t = p_editorItemTitle p
          /\ lastWithTitle ap p = t).
Proof.
  split; [apply uniquePosts_char|]. split; [|split].
  - rewrite uniquePosts_char, map_map. apply map_ext.
    apply lastWithTitle_title.
  - intros st. unfold removeDuplicatePosts, buildRender. simpl.
    now rewrite uniquePosts_char.
  - intros pinned topicPosts p -> He. rewrite <- existsb_rev in He.
    apply find_exists in He as (t & Hf & Hin & Hs).
    exists t. split; [now apply in_rev|]. split.
    + symmetry. now apply sameTitle_eq.
    + unfold lastWithTitle. now rewrite rev_app_distr, find_app, Hf.
Qed.

Lemma dedup_first_place_last_fields_witness :
  exists t,
    In t [Sample.topicX]
    /\ p_editorItemTitle t = p_editorItemTitle Sample.pinnedX
    /\ lastWithTitle [Sample.pinnedX; Sample.topicX] Sample.pinnedX = t.
Proof.
  apply (proj2 (proj2 (proj2
           (dedup_first_place_last_fields [Sample.pinnedX; Sample.topicX])))
           [Sample.pinnedX] [Sample.topicX] Sample.pinnedX).
  - reflexivity.
  - reflexivity.
Defined.

(** ** Pinned entries come first *)

Lemma filter_filter {A : Type} (f g : A -> bool) (l : list A) :
  filter f (filter g l) = filter (fun x => g x && f x) l.
Proof.
  induction l as [|a l IH]; simpl; [reflexivity|].
  destruct (g a); simpl; [|assumption]. destruct (f a); now rewrite IH.
Qed.

Lemma firstSeen_app (a b : list PostObject) :
  firstSeen (a ++ b)
  = firstSeen a
    ++ filter (fun q => negb (existsb (sameTitle q) a)) (firstSeen b).
Proof.
  induction a as [|p a IH]; simpl.
  - symmetry. erewrite filter_ext; [apply filter_true|]. reflexivity.
  - f_equal. rewrite IH, filter_app. f_equal.
    rewrite filter_filter. apply filter_ext. intros q.
    rewrite negb_orb, (sameTitle_sym q p). apply andb_comm.
Qed.

(** The entries of a deduplicated list [pinned ++ rest] that stand where a
    pinned title was first seen, and the entries that follow them. *)
Definition pinnedPart (pinned rest : list PostObject) : list PostObject :=
  map (lastWithTitle (pinned ++ rest)) (firstSeen pinned).

Definition topicPart (pinned rest : list PostObject) : list PostObject :=
  map (lastWithTitle (pinned ++ rest))
      (filter (fun q => negb (existsb (sameTitle q) pinned))
              (firstSeen rest)).

Lemma uniquePosts_parts (pinned rest : list PostObject) :
  uniquePosts (pinned ++ rest)
  = pinnedPart pinned rest ++ topicPart pinned rest.
Proof.
  rewrite uniquePosts_char, firstSeen_app. apply map_app.
Qed.

Lemma pinnedPart_pinned (pinned rest : list PostObject) (p : PostObject) :
  In p (pinnedPart pinned rest) -> existsb (sameTitle p) pinned = true.
Proof.
  intros H. apply in_map_iff in H as (p0 & <- & H0).
  apply existsb_exists. exists p0. split; [now apply firstSeen_In|].
  apply sameTitle_eq. apply lastWithTitle_title.
Qed.

Lemma topicPart_not_pinned (pinned rest : list PostObject) (q : PostObject) :
  In q (topicPart pinned rest) -> existsb (sameTitle q) pinned = false.
Proof.
  intros H. apply in_map_iff in H as (q0 & <- & H0).
  apply filter_In in H0 as [_ H0]. apply negb_true_iff in H0.
  rewrite <- H0. apply existsb_ext. intros r. unfold sameTitle.
  now rewrite lastWithTitle_title.
Qed.

Lemma firstn_In {A : Type} (n : nat) (l : list A) (x : A) :
  In x (firstn n l) -> In x l.
Proof.
  intros H. rewrite <- (firstn_skipn n l). apply in_app_iff. now left.
Qed.

(** A prefix that reaches a later entry holds every pinned entry. *)
Lemma prefix_keeps_pinned (n : nat) (pinned rest : list PostObject)
    (p q : PostObject) :
  In q (topicPart pinned rest) ->
  In q (firstn n (uniquePosts (pinned ++ rest))) ->
  In p (pinnedPart pinned rest) ->
  In p (firstn n (uniquePosts (pinned ++ rest))).
Proof.
  intros Hq Hout Hp. rewrite uniquePosts_parts, firstn_app in *.
  apply in_app_iff in Hout as [Hout|Hout].
  - apply firstn_In in Hout. apply pinnedPart_pinned in Hout.
    apply topicPart_not_pinned in Hq. congruence.
  - apply in_app_iff. left.
    destruct (Nat.le_gt_cases n (List.length (pinnedPart pinned rest)))
      as [Hle|Hgt].
    + replace (n - List.length (pinnedPart pinned rest))%nat with 0%nat
        in Hout by lia.
      destruct Hout.
    + rewrite firstn_all2 by lia. assumption.
Qed.

(** ** Truncation *)

Definition cap (d : Device) : nat :=
  match d with
  | desktop => maximumDesktopPosts
  | mobile => maximumMobilePosts
  end.

Lemma truncated_firstn {P : Type} (d : Device) (l : list P) :
  truncated d l = firstn (cap d) l.
Proof.
  unfold truncated. destruct d; simpl cap.
  - destruct (Nat.ltb_spec maximumDesktopPosts (List.length l));
      [reflexivity|]. symmetry. now apply firstn_all2.
  - destruct (Nat.ltb_spec maximumMobilePosts (List.length l));
      [reflexivity|]. symmetry. now apply firstn_all2.
Qed.

Lemma truncated_nil {P : Type} (d : Device) (l : list P) :
  truncated d l = [] <-> l = [].
Proof.
  rewrite truncated_firstn. split; [|intros ->; apply firstn_nil].
  destruct l; [reflexivity|].
  destruct d; cbv [cap maximumDesktopPosts maximumMobilePosts]; simpl;
    discriminate.
Qed.

Lemma render_some {host : Host} {P : Type} (win : Window) (st : HubState P)
    (ps : list P) :
  render win st = Some ps -> ps = postsState st.
Proof.
  unfold render. destruct (negb (showInfoHub win)); [discriminate|].
  destruct (loading st); [discriminate|].
  destruct (_ =? 0)%nat; [discriminate|].
  destruct (_ =? _)%nat; [discriminate|]. congruence.
Qed.

Section Truncation.

Context {host : Host}.
Variable props : InfoHubv3Props PostObject.
Variable win : Window.

(** The pinned posts and the posts of the ranked topics that pass the
    activation filter. *)
Definition pinnedActive : list PostObject :=
  activePosts (Date_now win) (priority props).

Definition rankedActive : list PostObject :=
  activePosts (Date_now win) (postsOf props (rankedTopics props win)).

Lemma assembledPosts_parts :
  assembledPosts props win = uniquePosts (pinnedActive ++ rankedActive).
Proof.
  unfold assembledPosts, priorityWithArticles. now rewrite activePosts_app.
Qed.

(** C5, amended: [buildRender] keeps the first N entries of the list it is
    given, N being 10 on a desktop device and 6 on a mobile one; after a
    run that matched, the device is desktop exactly when the width is at
    least 1026, the posts in the state are the first N of the assembled
    list, no more than N of them, and what is rendered is that prefix.
    The assembled list is the entries standing where a pinned title was
    first seen, followed by the entries whose title no surviving pinned
    post has; whenever one of the latter is in the output, every one of
    the former is there too. *)
Theorem truncation_takes_prefix_and_keeps_pinned (st : HubState PostObject) :
  (forall (uniquePostArray : list PostObject) (s : HubState PostObject),
      postsState (buildRender uniquePostArray s)
      = firstn (match device s with desktop => 10 | mobile => 6 end)
               uniquePostArray)
  /\ (canUseDOM win = true ->
      finalTopics win (keywordList props) <> [] ->
      let N := if innerWidth win >=? 1026 then 10%nat else 6%nat in
      exists st',
        resetInfoHub props win st = Some st'
        /\ postsState st' = firstn N (assembledPosts props win)
        /\ (List.length (postsState st') <= N)%nat
        /\ (forall ps, render win st' = Some ps ->
                       ps = firstn N (assembledPosts props win))
        /\ assembledPosts props win
           = pinnedPart pinnedActive rankedActive
             ++ topicPart pinnedActive rankedActive
        /\ map p_editorItemTitle (pinnedPart pinnedActive rankedActive)
           = map p_editorItemTitle (firstSeen pinnedActive)
        /\ (forall q, In q (topicPart pinnedActive rankedActive) ->
                      existsb (sameTitle q) pinnedActive = false)
        /\ (forall p q,
              In q (topicPart pinnedActive rankedActive) ->
              In q (postsState st') ->
              In p (pinnedPart pinnedActive rankedActive) ->
              In p (postsState st'))).
Proof.
  split.
  - intros l s. unfold buildRender. simpl. rewrite truncated_firstn.
    now destruct (device s).
  - intros Hdom Hm N. eexists. split; [now apply resetInfoHub_match|].
    simpl postsState. rewrite truncated_firstn.
    assert (HN : cap (deviceOf win) = N).
    { unfold deviceOf, N. now destruct (innerWidth win >=? 1026). }
    rewrite HN. split; [reflexivity|]. split; [apply firstn_le_length|].
    split.
    { intros ps Hps. apply render_some in Hps. exact Hps. }
    split; [rewrite assembledPosts_parts; apply uniquePosts_parts|].
    split.
    { unfold pinnedPart. rewrite map_map. apply map_ext.
      apply lastWithTitle_title. }
    split; [intros q; apply topicPart_not_pinned|].
    intros p q Hq Hout Hp. rewrite assembledPosts_parts in *.
    now apply (prefix_keeps_pinned N _ _ p q).
Qed.

End Truncation.

Module SampleRun.
Import Sample.

(** One pinned post and one topic matched by the page. *)
Definition shop : InfoHubv3Props PostObject :=
  {| titleText := EmptyString;
     articles := [topicOf 0 "saddle" [post "B17" "/b17" true EmptyString]];
     priority := [pinnedX] |}.

Definition saddlePage : Window :=
  page "/products/b17-Saddle" "?x=1" 1200 in2026.

(** Six pinned posts and one topic post, on a mobile viewport. *)
Definition sixPinned : InfoHubv3Props PostObject :=
  {| titleText := EmptyString;
     articles := [topicOf 0 "saddle" [post "B17" "/b17" true EmptyString]];
     priority := [post "P1" "/1" true EmptyString;
                  post "P2" "/2" true EmptyString;
                  post "P3" "/3" true EmptyString;
                  post "P4" "/4" true EmptyString;
                  post "P5" "/5" true EmptyString;
                  post "P6" "/6" true EmptyString] |}.

Definition mobilePage : Window := page "/saddle" EmptyString 800 in2026.

(** Seven pinned posts and a topic post that has the title of the first. *)
Definition topicP1 : PostObject := post "P1" "/topic" true EmptyString.
Definition pinned7 : PostObject := post "P7" "/7" true EmptyString.

Definition sevenPinned : InfoHubv3Props PostObject :=
  {| titleText := EmptyString;
     articles := [topicOf 0 "saddle" [topicP1]];
     priority := [post "P1" "/1" true EmptyString;
                  post "P2" "/2" true EmptyString;
                  post "P3" "/3" true EmptyString;
                  post "P4" "/4" true EmptyString;
                  post "P5" "/5" true EmptyString;
                  post "P6" "/6" true EmptyString; pinned7] |}.

(** A tier-2 topic configured before a tier-0 topic, both matched. *)
Definition twoTiers : InfoHubv3Props PostObject :=
  {| titleText := EmptyString;
     articles := [topicOf 2 "gravel" [post "GravelGuide" "/g" true EmptyString];
                  topicOf 0 "saddle" [post "B17" "/b17" true EmptyString]];
     priority := [] |}.

Definition gravelSaddlePage : Window :=
  page "/gravel-saddle" EmptyString 1200 in2026.

Definition optOutPage : Window := page "/saddle" "?ih=0" 1200 in2026.

Definition cartPage : Window := page "/cart" EmptyString 1200 in2026.

(** A topic whose only keyword is the empty text. *)
Definition emptyKeyword : KeywordObject PostObject :=
  topicOf 5 EmptyString [launch].

Definition emptyKeywordShop : InfoHubv3Props PostObject :=
  {| titleText := EmptyString; articles := [emptyKeyword]; priority := [] |}.

(** The same shop with its posts in a store: a post scheduled for 2999
    and a plain one. *)
Definition launchStore : Store.store :=
  [launch; post "B17" "/b17" true EmptyString].

Definition launchShop : InfoHubv3Props nat :=
  {| titleText := EmptyString;
     articles := [topicOf 0 "saddle" [0%nat; 1%nat]];
     priority := [] |}.

Definition laterPage : Window := page "/saddle" EmptyString 1200 in3000.

End SampleRun.

Lemma truncation_takes_prefix_and_keeps_pinned_witness :
  exists st',
    resetInfoHub (host := Engine.host) SampleRun.shop SampleRun.saddlePage
      initialState = Some st'
    /\ postsState st'
       = firstn 10 (assembledPosts (host := Engine.host) SampleRun.shop
                      SampleRun.saddlePage).
Proof.
  destruct (proj2 (truncation_takes_prefix_and_keeps_pinned
                     (host := Engine.host) SampleRun.shop
                     SampleRun.saddlePage initialState))
    as (st' & H1 & H2 & _).
  - reflexivity.
  - vm_compute. discriminate.
  - exists st'. split; assumption.
Defined.

(** C5 as stated fails: seven pinned posts, and a topic post with the
    title of the first, on a mobile viewport.  The topic post takes the
    first pinned post's place in deduplication, the list is cut to six,
    and what is rendered holds the topic post while the seventh pinned
    post, which is in the assembled list, is dropped. *)
Lemma truncation_drops_pinned_beside_topic_post :
  exists out,
    option_map (render (host := Engine.host) SampleRun.mobilePage)
      (resetInfoHub (host := Engine.host) SampleRun.sevenPinned
         SampleRun.mobilePage initialState)
    = Some (Some out)
    /\ out = firstn 6 (assembledPosts (host := Engine.host)
                         SampleRun.sevenPinned SampleRun.mobilePage)
    /\ In SampleRun.topicP1 out
    /\ ~ In SampleRun.topicP1 (priority SampleRun.sevenPinned)
    /\ In SampleRun.pinned7 (priority SampleRun.sevenPinned)
    /\ In SampleRun.pinned7
         (assembledPosts (host := Engine.host) SampleRun.sevenPinned
            SampleRun.mobilePage)
    /\ ~ In SampleRun.pinned7 out.
Proof.
  eexists. split; [vm_compute; reflexivity|].
  split; [reflexivity|]. split; [now left|].
  split; [simpl; intuition discriminate|].
  split; [simpl; tauto|].
  split; [vm_compute; tauto|].
  simpl. intuition discriminate.
Qed.

(** ** The render gate *)

Section Gate.

Context {host : Host}.
Variable props : InfoHubv3Props PostObject.
Variable win : Window.

(** The PriorityPostList entries that pass the activation filter. *)
Definition prioritySurvivors : nat :=
  List.length (activePosts (Date_now win) (priority props)).

Lemma showInfoHub_DOM : showInfoHub win = true -> canUseDOM win = true.
Proof. unfold showInfoHub. now destruct (canUseDOM win). Qed.

Lemma render_none (st : HubState PostObject) :
  showInfoHub win = true -> loading st = false ->
  (render win st = None <->
   postsState st = []
   \/ List.length (postsState st) = activePriorityPosts st).
Proof.
  intros Hs Hl. unfold render. rewrite Hs, Hl. cbn [negb].
  destruct (Nat.eqb_spec (List.length (postsState st)) 0) as [H0|H0].
  - split; [|reflexivity]. intros _. left. now apply length_zero_iff_nil.
  - destruct (Nat.eqb_spec (List.length (postsState st))
                (activePriorityPosts st)) as [H1|H1].
    + split; auto.
    + split; [discriminate|].
      intros [H|H]; [rewrite H in H0; now elim H0|contradiction].
Qed.

(** The gate as the code has it: the length tested is that of the
    truncated list, and the count is that of the [active] flags. *)
Lemma gate_as_coded (st : HubState PostObject) :
  showInfoHub win = true ->
  exists st',
    messageHandler props win "ebs-infohub-run" st = Some st'
    /\ (render win st' = None <->
        finalTopics win (keywordList props) = []
        \/ assembledPosts props win = []
        \/ List.length (truncated (deviceOf win) (assembledPosts props win))
           = countActivePriority props).
Proof.
  intros Hs. pose proof (showInfoHub_DOM Hs) as Hdom.
  unfold messageHandler. rewrite Hs. simpl.
  destruct (finalTopics win (keywordList props)) eqn:Hm.
  - eexists. split; [now apply resetInfoHub_no_match|].
    rewrite render_none by auto. simpl. intuition.
  - eexists. split; [apply resetInfoHub_match; [assumption|now rewrite Hm]|].
    rewrite render_none by auto. simpl. rewrite truncated_nil.
    split; [intros [H|H]; auto|].
    intros [H|[H|H]]; [discriminate|auto|auto].
Qed.

(** C3, amended: with the DOM present and no opt-out flag, and with a
    priority list whose count of [active] flags equals the number of its
    entries that pass the activation filter, the widget renders nothing
    after a run exactly when no keyword matched, or the assembled list is
    empty, or the length of the list after device truncation equals that
    number. *)
Theorem render_gate (st : HubState PostObject) :
  showInfoHub win = true ->
  countActivePriority props = prioritySurvivors ->
  exists st',
    messageHandler props win "ebs-infohub-run" st = Some st'
    /\ (render win st' = None <->
        finalTopics win (keywordList props) = []
        \/ assembledPosts props win = []
        \/ List.length
             (firstn (if innerWidth win >=? 1026 then 10 else 6)
                     (assembledPosts props win))
           = prioritySurvivors).
Proof.
  intros Hs Hc. destruct (gate_as_coded st Hs) as (st' & Hrun & Hgate).
  exists st'. split; [assumption|].
  rewrite Hgate, truncated_firstn, Hc.
  replace (cap (deviceOf win))
    with (if innerWidth win >=? 1026 then 10%nat else 6%nat);
    [reflexivity|].
  unfold deviceOf. now destruct (innerWidth win >=? 1026).
Qed.

(** C8: when the query string carries [ih=0], the component returns the
    empty fragment in every state, at mount as after any message, and the
    message handler leaves the state as it is without running the
    pipeline. *)
Theorem opt_out_flag_suppresses :
  URLSearchParams_get (search win) "ih" = Some "0"%string ->
  showInfoHub win = false
  /\ render win (@initialState PostObject) = None
  /\ (forall st : HubState PostObject, render win st = None)
  /\ (forall (eventName : string) (st : HubState PostObject),
        messageHandler props win eventName st = Some st
        /\ render win st = None).
Proof.
  intros H.
  assert (Hs : showInfoHub win = false).
  { unfold showInfoHub. rewrite H. now destruct (canUseDOM win). }
  assert (Hr : forall st : HubState PostObject, render win st = None).
  { intros st. unfold render. now rewrite Hs. }
  repeat split; auto.
  unfold messageHandler. now rewrite Hs.
Qed.

End Gate.

(** C3 as stated fails: six pinned posts and one topic post on a mobile
    viewport.  A keyword matched, the assembled list has seven entries and
    six priority entries passed the activation filter, yet nothing is
    rendered, because the list is cut to six before its length is
    compared. *)
Lemma gate_compares_truncated_length :
  exists st',
    messageHandler (host := Engine.host) SampleRun.sixPinned
      SampleRun.mobilePage "ebs-infohub-run" initialState = Some st'
    /\ render (host := Engine.host) SampleRun.mobilePage st' = None
    /\ ~ (finalTopics (host := Engine.host) SampleRun.mobilePage
            (keywordList (host := Engine.host) SampleRun.sixPinned) = []
          \/ assembledPosts (host := Engine.host) SampleRun.sixPinned
               SampleRun.mobilePage = []
          \/ List.length
               (assembledPosts (host := Engine.host) SampleRun.sixPinned
                  SampleRun.mobilePage)
             = prioritySurvivors (host := Engine.host) SampleRun.sixPinned
                 SampleRun.mobilePage).
Proof.
  eexists. split; [vm_compute; reflexivity|]. split; [reflexivity|].
  vm_compute. intros [H|[H|H]]; discriminate.
Qed.

Lemma render_gate_witness :
  exists st',
    messageHandler (host := Engine.host) SampleRun.shop SampleRun.saddlePage
      "ebs-infohub-run" initialState = Some st'
    /\ (render (host := Engine.host) SampleRun.saddlePage st' = None <->
        finalTopics (host := Engine.host) SampleRun.saddlePage
          (keywordList (host := Engine.host) SampleRun.shop) = []
        \/ assembledPosts (host := Engine.host) SampleRun.shop
             SampleRun.saddlePage = []
        \/ List.length
             (firstn (if innerWidth SampleRun.saddlePage >=? 1026
                      then 10 else 6)
                     (assembledPosts (host := Engine.host) SampleRun.shop
                        SampleRun.saddlePage))
           = prioritySurvivors (host := Engine.host) SampleRun.shop
               SampleRun.saddlePage).
Proof.
  apply (render_gate (host := Engine.host) SampleRun.shop
           SampleRun.saddlePage initialState).
  - reflexivity.
  - reflexivity.
Defined.

Lemma opt_out_flag_suppresses_witness :
  showInfoHub (host := Engine.host) SampleRun.optOutPage = false
  /\ render (host := Engine.host) SampleRun.optOutPage
       (@initialState PostObject) = None.
Proof.
  destruct (opt_out_flag_suppresses (host := Engine.host) SampleRun.shop
              SampleRun.optOutPage) as (H1 & H2 & _).
  - reflexivity.
  - split; assumption.
Defined.

(** ** The matcher *)

Section MatcherClaims.

Context {host : Host}.

Lemma render_empty {P : Type} (win : Window) (st : HubState P) :
  postsState st = [] -> render win st = None.
Proof.
  intros H. unfold render. rewrite H. simpl.
  destruct (negb (showInfoHub win)); [reflexivity|]. now destruct (loading st).
Qed.

(** C6: a topic is in the match set exactly when one of its keywords,
    lower-cased, occurs somewhere in the lower-cased path and query; and
    when the match set is empty the run ends with no posts, nothing to
    render, and the device left as it was. *)
Theorem matcher_substring_and_early_exit
    (props : InfoHubv3Props PostObject) (win : Window) :
  currentURL win = toLowerCase (pathname win ++ search win)%string
  /\ (forall t : Z,
        In t (finalTopics win (keywordList props)) <->
        exists i article k,
          t = Z.of_nat i
          /\ nth_error (articles props) i = Some article
          /\ In k (keywords article)
          /\ Substring (toLowerCase (k_editorItemTitle k)) (currentURL win))
  /\ (forall st : HubState PostObject,
        finalTopics win (keywordList props) = [] ->
        exists st',
          resetInfoHub props win st = Some st'
          /\ device st' = device st
          /\ postsState st' = []
          /\ render win st' = None).
Proof.
  split; [reflexivity|]. split; [apply finalTopics_In|].
  intros st Hm. destruct (canUseDOM win) eqn:Hdom.
  - eexists. split; [now apply resetInfoHub_no_match|].
    repeat split. now apply render_empty.
  - eexists. split; [now apply resetInfoHub_no_DOM|].
    repeat split. now apply render_empty.
Qed.

(** C9: a topic with a keyword whose text is empty is matched whatever
    the page is, is handed to [buildPosts] by the ranker, and every one of
    its posts is in the concatenated list. *)
Theorem empty_keyword_matches_every_page
    (P : Type) (props : InfoHubv3Props P) (win : Window)
    (i : nat) (article : KeywordObject P) (k : KeywordString) :
  nth_error (articles props) i = Some article ->
  In k (keywords article) ->
  k_editorItemTitle k = EmptyString ->
  In (Z.of_nat i) (finalTopics win (keywordList props))
  /\ In (Z.of_nat i) (rankedTopics props win)
  /\ postBuilder props (rankedTopics props win)
     = Some (postsOf props (rankedTopics props win))
  /\ (forall p, In p (posts article) ->
        In p (priorityWithArticles props
                (postsOf props (rankedTopics props win)))).
Proof.
  intros Hi Hk He.
  assert (Hm : In (Z.of_nat i) (finalTopics win (keywordList props))).
  { apply finalTopics_In. exists i, article, k. repeat split; auto.
    rewrite He, toLowerCase_empty. apply includes_spec, includes_empty. }
  destruct (ranked_some P props win) as (_ & Hperm & Hpb).
  assert (Hr : In (Z.of_nat i) (rankedTopics props win)).
  { apply Permutation_sym in Hperm. now apply (Permutation_in _ Hperm). }
  repeat split; auto.
  intros p Hp. unfold priorityWithArticles. apply in_app_iff. right.
  unfold postsOf. apply in_flat_map. exists (Z.of_nat i). split; [assumption|].
  unfold lookup_article. destruct (Z.ltb_spec (Z.of_nat i) 0); [lia|].
  now rewrite Nat2Z.id, Hi.
Qed.

End MatcherClaims.

Lemma matcher_substring_and_early_exit_witness :
  exists st',
    resetInfoHub (host := Engine.host) SampleRun.shop
      SampleRun.cartPage
      (setDevice desktop initialState) = Some st'
    /\ device st' = desktop
    /\ postsState st' = []
    /\ render (host := Engine.host)
         SampleRun.cartPage st' = None.
Proof.
  apply (proj2 (proj2 (matcher_substring_and_early_exit
                         (host := Engine.host) SampleRun.shop
                         SampleRun.cartPage))).
  reflexivity.
Defined.

Lemma empty_keyword_matches_every_page_witness :
  In 0 (finalTopics (host := Engine.host)
          SampleRun.cartPage
          (keywordList (host := Engine.host)
             SampleRun.emptyKeywordShop)).
Proof.
  apply (empty_keyword_matches_every_page (host := Engine.host) PostObject
           SampleRun.emptyKeywordShop
           SampleRun.cartPage
           0%nat SampleRun.emptyKeyword
           {| k_editorItemTitle := EmptyString |}).
  - reflexivity.
  - left. reflexivity.
  - reflexivity.
Defined.

(** ** The ranker on the reference engine *)

Lemma run_rest_nonneg {A : Type} (cmp : A -> A -> Z) (l : list A) :
  (forall a b, 0 <= cmp a b) ->
  forall prev, Engine.run_rest A cmp false prev l = (l, []).
Proof.
  intros H. induction l as [|x l IH]; intros prev; simpl; [reflexivity|].
  destruct (Z.ltb_spec (cmp x prev) 0) as [Hlt|_].
  - specialize (H x prev). lia.
  - simpl. now rewrite IH.
Qed.

(** A comparator that is never negative makes the engine's sort return
    the array as it was. *)
Lemma sort_nonneg {A : Type} (cmp : A -> A -> Z) (l : list A) :
  (forall a b, 0 <= cmp a b) -> Engine.sort A cmp l = l.
Proof.
  intros H. unfold Engine.sort, Engine.count_run.
  destruct l as [|a0 [|a1 l]]; try reflexivity.
  destruct (Z.ltb_spec (cmp a1 a0) 0) as [Hlt|_].
  - specialize (H a1 a0). lia.
  - now rewrite run_rest_nonneg.
Qed.

Lemma comparisonFunction_nonneg (a b : TopicAndPriority) :
  0 <= comparisonFunction a b.
Proof. unfold comparisonFunction. destruct (_ >? _); lia. Qed.

(** On the reference engine the ranker hands the topics on in the order
    the matcher found them, whatever their tiers. *)
Lemma ranker_keeps_discovery_order {P : Type} (props : InfoHubv3Props P)
    (ft sorted : list Z) :
  sortedFinalTopics (host := Engine.host) props ft = Some sorted ->
  sorted = ft.
Proof.
  unfold sortedFinalTopics.
  destruct (unsortedTopics props ft) as [u|] eqn:Hu; [|discriminate].
  intros [= <-]. simpl. rewrite sort_nonneg by apply comparisonFunction_nonneg.
  revert u Hu. unfold unsortedTopics.
  induction ft as [|t ft IH]; simpl; intros u Hu.
  - now injection Hu as <-.
  - destruct (lookup_article (articles props) t); [|discriminate].
    destruct (mapM _ ft) as [u'|] eqn:Hu'; [|discriminate].
    injection Hu as <-. simpl. f_equal. now apply IH.
Qed.

(** C4, at an input where the code departs from it: a tier-2 topic
    configured before a tier-0 topic, both matched.  The comparator
    answers 1 or 0, never a negative number; on the reference engine the
    sort leaves the topics in discovery order, and the tier-2 topic's post
    is listed before the tier-0 topic's post. *)
Theorem boolean_comparator_leaves_tiers_unsorted :
  finalTopics (host := Engine.host) SampleRun.gravelSaddlePage
    (keywordList (host := Engine.host) SampleRun.twoTiers) = [0; 1]
  /\ unsortedTopics SampleRun.twoTiers [0; 1]
     = Some [ {| tp_topic := 0; tp_priority := 2 |};
              {| tp_topic := 1; tp_priority := 0 |} ]
  /\ comparisonFunction {| tp_topic := 1; tp_priority := 0 |}
       {| tp_topic := 0; tp_priority := 2 |} = 0
  /\ sortedFinalTopics (host := Engine.host) SampleRun.twoTiers [0; 1]
     = Some [0; 1]
  /\ option_map postsState
       (resetInfoHub (host := Engine.host) SampleRun.twoTiers
          SampleRun.gravelSaddlePage initialState)
     = Some [Sample.post "GravelGuide" "/g" true EmptyString;
             Sample.post "B17" "/b17" true EmptyString].
Proof. repeat split. Qed.

(** ** The store: copies are written, never the configuration *)

Module StoreFacts.

Lemma load_app (h ext : Store.store) (l : nat) :
  (l < List.length h)%nat -> Store.load (h ++ ext) l = Store.load h l.
Proof. intros H. unfold Store.load. now apply app_nth1. Qed.

Lemma map_load_app (h ext : Store.store) (ls : list nat) :
  Forall (fun l => (l < List.length h)%nat) ls ->
  map (Store.load (h ++ ext)) ls = map (Store.load h) ls.
Proof.
  intros H. apply map_ext_in. intros l Hl. apply load_app.
  rewrite Forall_forall in H. auto.
Qed.

Lemma write_active_last (h : Store.store) (p : PostObject) (b : bool) :
  Store.write_active (List.length h) b (h ++ [p]) = h ++ [set_active b p].
Proof. induction h as [|q h IH]; simpl; [reflexivity|]. now rewrite IH. Qed.

Lemma load_fresh (h rest : Store.store) (p : PostObject) :
  Store.load (h ++ p :: rest) (List.length h) = p.
Proof. unfold Store.load. apply nth_middle. Qed.

Lemma map_load_fresh (ext : Store.store) :
  forall h : Store.store,
    map (Store.load (h ++ ext)) (seq (List.length h) (List.length ext)) = ext.
Proof.
  induction ext as [|p ext IH]; intros h; simpl; [reflexivity|].
  rewrite load_fresh. f_equal.
  specialize (IH (h ++ [p])). rewrite <- app_assoc in IH. simpl in IH.
  rewrite length_app in IH. simpl in IH.
  now rewrite Nat.add_1_r in IH.
Qed.

Section Refinement.

Context {host : Host}.

Lemma tempPost_copy (rightNow : Z) (l : nat) (h : Store.store) :
  (l < List.length h)%nat ->
  Store.tempPost rightNow l h
  = (List.length h, h ++ [tempPost rightNow (Store.load h l)]).
Proof.
  intros Hl. unfold Store.tempPost, Store.spread, tempPost.
  rewrite load_app by assumption.
  destruct (Date_parse (startDate (Store.load h l))) as [t|]; [|reflexivity].
  destruct (t =? 0); [reflexivity|]. now rewrite write_active_last.
Qed.

Lemma postsWithInactive_copies (rightNow : Z) (pb : list nat) :
  forall h : Store.store,
    Forall (fun l => (l < List.length h)%nat) pb ->
    Store.postsWithInactive rightNow pb h
    = (seq (List.length h) (List.length pb),
       h ++ postsWithInactive rightNow (map (Store.load h) pb)).
Proof.
  induction pb as [|l pb IH]; intros h Hpb; simpl.
  - now rewrite app_nil_r.
  - inversion Hpb as [|? ? Hl Hrest]; subst.
    rewrite tempPost_copy by assumption.
    assert (Hrest' : Forall (fun a => (a < List.length (h ++
              [tempPost rightNow (Store.load h l)]))%nat) pb).
    { eapply Forall_impl; [|exact Hrest]. intros a Ha.
      rewrite length_app. simpl in *. lia. }
    rewrite (IH _ Hrest'). rewrite length_app. simpl.
    rewrite Nat.add_1_r, <- app_assoc. simpl.
    now rewrite (map_load_app h _ pb Hrest).
Qed.

Lemma activePosts_copies (rightNow : Z) (pb : list nat) (h : Store.store) :
  Forall (fun l => (l < List.length h)%nat) pb ->
  exists ap,
    Store.activePosts rightNow pb h
    = (ap, h ++ postsWithInactive rightNow (map (Store.load h) pb))
    /\ map (Store.load (h ++ postsWithInactive rightNow
                         (map (Store.load h) pb))) ap
       = activePosts rightNow (map (Store.load h) pb).
Proof.
  intros Hpb. unfold Store.activePosts.
  rewrite postsWithInactive_copies by assumption.
  eexists. split; [reflexivity|].
  set (ext := postsWithInactive rightNow (map (Store.load h) pb)).
  assert (Hlen : List.length pb = List.length ext).
  { unfold ext, postsWithInactive. now rewrite !length_map. }
  rewrite Hlen.
  rewrite <- (filter_map_swap active (Store.load (h ++ ext))).
  now rewrite map_load_fresh.
Qed.

Lemma Map_set_values {V W : Type} (f : V -> W) (k : string) (v : V)
    (m : list (string * V)) :
  map (fun kv => (fst kv, f (snd kv))) (Map_set k v m)
  = Map_set k (f v) (map (fun kv => (fst kv, f (snd kv))) m).
Proof.
  induction m as [|[k' v'] m IH]; simpl; [reflexivity|].
  destruct (String.eqb k' k); simpl; [reflexivity|]. now rewrite IH.
Qed.

Lemma postMap_values (h : Store.store) (ap : list nat) :
  forall m : list (string * nat),
    map (fun kv => (fst kv, Store.load h (snd kv)))
        (fold_left
           (fun m post =>
              Map_set (p_editorItemTitle (Store.load h post)) post m)
           ap m)
    = fold_left (fun m post => Map_set (p_editorItemTitle post) post m)
        (map (Store.load h) ap)
        (map (fun kv => (fst kv, Store.load h (snd kv))) m).
Proof.
  induction ap as [|l ap IH]; intros m; simpl; [reflexivity|].
  now rewrite IH, Map_set_values.
Qed.

Lemma uniquePosts_values (h : Store.store) (ap : list nat) :
  map (Store.load h) (Store.uniquePosts ap h)
  = uniquePosts (map (Store.load h) ap).
Proof.
  unfold Store.uniquePosts, uniquePosts, Store.postMap, postMap.
  pose proof (postMap_values h ap []) as H. simpl in H. rewrite <- H.
  rewrite !map_map. reflexivity.
Qed.

Lemma truncated_map {A B : Type} (f : A -> B) (d : Device) (l : list A) :
  map f (truncated d l) = truncated d (map f l).
Proof.
  unfold truncated. rewrite length_map.
  destruct d; destruct (_ <? _)%nat; try reflexivity; symmetry;
    apply firstn_map.
Qed.

Lemma fold_left_map {A B C : Type} (f : C -> B -> C) (g : A -> B)
    (l : list A) :
  forall c, fold_left f (map g l) c = fold_left (fun c a => f c (g a)) l c.
Proof. induction l as [|a l IH]; intros c; simpl; [reflexivity|]. apply IH. Qed.

Lemma countActivePriority_values (props : InfoHubv3Props nat)
    (h : Store.store) :
  Store.countActivePriority props h
  = countActivePriority (Store.deref_props h props).
Proof.
  unfold Store.countActivePriority, countActivePriority. simpl.
  now rewrite fold_left_map.
Qed.

(** The stages that do not look inside a post see the same topics. *)

Lemma forEach_index_map {A A' B : Type} (f : A' -> nat -> list B)
    (g : A -> A') (l : list A) :
  forall i, forEach_index f (map g l) i
            = forEach_index (fun a => f (g a)) l i.
Proof.
  induction l as [|a l IH]; intros i; simpl; [reflexivity|]. now rewrite IH.
Qed.

Lemma keywordList_deref (h : Store.store) (props : InfoHubv3Props nat) :
  keywordList (Store.deref_props h props) = keywordList props.
Proof. unfold keywordList. simpl. now rewrite forEach_index_map. Qed.

Lemma lookup_article_deref (h : Store.store) (props : InfoHubv3Props nat)
    (t : Z) :
  lookup_article (articles (Store.deref_props h props)) t
  = option_map (Store.deref_article h) (lookup_article (articles props) t).
Proof.
  unfold lookup_article. simpl. destruct (t <? 0); [reflexivity|].
  apply nth_error_map.
Qed.

Lemma mapM_ext {A B : Type} (f g : A -> option B) (l : list A) :
  (forall a, f a = g a) -> mapM f l = mapM g l.
Proof.
  intros H. induction l as [|a l IH]; simpl; [reflexivity|].
  now rewrite H, IH.
Qed.

Lemma sortedFinalTopics_deref (h : Store.store) (props : InfoHubv3Props nat)
    (ft : list Z) :
  sortedFinalTopics (Store.deref_props h props) ft = sortedFinalTopics props ft.
Proof.
  unfold sortedFinalTopics, unsortedTopics.
  erewrite mapM_ext; [reflexivity|].
  intros t. rewrite lookup_article_deref.
  now destruct (lookup_article (articles props) t).
Qed.

Lemma rankedTopics_deref (h : Store.store) (props : InfoHubv3Props nat)
    (win : Window) :
  rankedTopics (Store.deref_props h props) win = rankedTopics props win.
Proof.
  unfold rankedTopics. now rewrite keywordList_deref, sortedFinalTopics_deref.
Qed.

Lemma postsOf_cons {P : Type} (props : InfoHubv3Props P) (t : Z)
    (sorted : list Z) :
  postsOf props (t :: sorted)
  = match lookup_article (articles props) t with
    | Some article => posts article
    | None => []
    end ++ postsOf props sorted.
Proof. reflexivity. Qed.

Lemma postsOf_deref (h : Store.store) (props : InfoHubv3Props nat)
    (sorted : list Z) :
  postsOf (Store.deref_props h props) sorted
  = map (Store.load h) (postsOf props sorted).
Proof.
  induction sorted as [|t sorted IH]; [reflexivity|].
  rewrite !postsOf_cons, map_app, IH, lookup_article_deref.
  now destruct (lookup_article (articles props) t).
Qed.

Lemma postsOf_allocated (h : Store.store) (props : InfoHubv3Props nat)
    (sorted : list Z) :
  Store.allocated h props ->
  Forall (fun l => (l < List.length h)%nat) (postsOf props sorted).
Proof.
  intros [_ Ha]. unfold postsOf. apply Forall_forall. intros l Hl.
  apply in_flat_map in Hl as (t & _ & Hl).
  unfold lookup_article in Hl. destruct (t <? 0); [destruct Hl|].
  destruct (nth_error (articles props) (Z.to_nat t)) as [a|] eqn:Hn;
    [|destruct Hl].
  apply nth_error_In in Hn. rewrite Forall_forall in Ha.
  specialize (Ha a Hn). rewrite Forall_forall in Ha. auto.
Qed.

Lemma allocated_app (h ext : Store.store) (props : InfoHubv3Props nat) :
  Store.allocated h props -> Store.allocated (h ++ ext) props.
Proof.
  intros [Hp Ha]. split.
  - eapply Forall_impl; [|exact Hp]. intros l Hl. rewrite length_app.
    simpl in *. lia.
  - eapply Forall_impl; [|exact Ha]. intros a H.
    eapply Forall_impl; [|exact H]. intros l Hl. rewrite length_app.
    simpl in *. lia.
Qed.

Lemma deref_props_app (h ext : Store.store) (props : InfoHubv3Props nat) :
  Store.allocated h props ->
  Store.deref_props (h ++ ext) props = Store.deref_props h props.
Proof.
  intros [Hp Ha]. unfold Store.deref_props. f_equal.
  - apply map_ext_in. intros a Hin. unfold Store.deref_article. f_equal.
    apply map_load_app. rewrite Forall_forall in Ha. auto.
  - now apply map_load_app.
Qed.

End Refinement.

End StoreFacts.

Section StoreRun.

Import StoreFacts.
Context {host : Host}.
Variable props : InfoHubv3Props nat.
Variable win : Window.

Lemma removeInactivePosts_refines (pb : list nat) (st : HubState nat)
    (h : Store.store) :
  Forall (fun l => (l < List.length h)%nat) pb ->
  exists st' ext,
    Store.removeInactivePosts win pb st h = (st', h ++ ext)
    /\ Store.deref_state (h ++ ext) st'
       = removeInactivePosts win (map (Store.load h) pb)
           (Store.deref_state h st).
Proof.
  intros Hpb. unfold Store.removeInactivePosts.
  destruct (activePosts_copies (Date_now win) pb h Hpb) as (ap & Hap & Hval).
  rewrite Hap. eexists. eexists. split; [reflexivity|].
  unfold Store.deref_state, Store.removeDuplicatePosts, Store.buildRender,
    removeInactivePosts, removeDuplicatePosts,
    buildRender.
  simpl. f_equal.
  now rewrite truncated_map, uniquePosts_values, Hval.
Qed.

Lemma resetInfoHub_refines (st : HubState nat) (h : Store.store) :
  Store.allocated h props ->
  exists st' ext,
    Store.resetInfoHub props win st h = Some (st', h ++ ext)
    /\ resetInfoHub (Store.deref_props h props) win (Store.deref_state h st)
       = Some (Store.deref_state (h ++ ext) st').
Proof.
  intros Hall.
  unfold Store.resetInfoHub, Store.buildKeywordList, Store.searchCurrentURL,
    resetInfoHub, buildKeywordList,
    searchCurrentURL.
  rewrite keywordList_deref.
  destruct (canUseDOM win); simpl.
  - destruct (topicBuilder win (keywordList props)).
    + exists (setLoading false (setPosts [] (setLoading true st))), [].
      now rewrite app_nil_r.
    + unfold Store.sortTopics, sortTopics.
      rewrite sortedFinalTopics_deref.
      destruct (ranked_some nat props win) as (Hs & _ & Hp). rewrite Hs.
      unfold Store.buildPosts, buildPosts. rewrite Hp.
      destruct (ranked_some PostObject (Store.deref_props h props) win)
        as (_ & _ & Hp').
      rewrite rankedTopics_deref in Hp'. rewrite Hp'.
      rewrite postsOf_deref, countActivePriority_values.
      unfold priorityWithArticles.
      destruct (removeInactivePosts_refines
                  (priority props ++ postsOf props (rankedTopics props win))
                  (setActivePriorityPosts
                     (countActivePriority (Store.deref_props h props))
                     (setDevice (deviceOf win)
                        (setPosts [] (setLoading true st)))) h)
        as (st' & ext & Hrun & Hval).
      { apply Forall_app. split; [apply Hall|now apply postsOf_allocated]. }
      exists st', ext. rewrite Hrun. split; [reflexivity|].
      rewrite Hval. simpl. now rewrite map_app.
  - exists (setPosts [] (setLoading true st)), []. now rewrite app_nil_r.
Qed.

Lemma messageHandler_refines (eventName : string) (st : HubState nat)
    (h : Store.store) :
  Store.allocated h props ->
  exists st' ext,
    Store.messageHandler props win eventName st h = Some (st', h ++ ext)
    /\ messageHandler (Store.deref_props h props) win eventName
         (Store.deref_state h st)
       = Some (Store.deref_state (h ++ ext) st').
Proof.
  intros Hall. unfold Store.messageHandler, messageHandler.
  destruct (negb (showInfoHub win)).
  - exists st, []. now rewrite app_nil_r.
  - destruct (String.eqb eventName "ebs-infohub-run").
    + now apply resetInfoHub_refines.
    + exists st, []. now rewrite app_nil_r.
Qed.

End StoreRun.

(** C7: a run writes only to the copies it allocates.  Every post object
    that existed before the run has the same fields after it, [active]
    included, so the configuration reads the same; and a later run, at any
    later time and page, gives what the pipeline gives on the
    configuration as the author wrote it. *)
Theorem run_leaves_configuration_untouched {host : Host}
    (props : InfoHubv3Props nat) (win : Window) (eventName : string)
    (st : HubState nat) (h : Store.store) :
  Store.allocated h props ->
  exists st' h',
    Store.messageHandler props win eventName st h = Some (st', h')
    /\ (forall l, (l < List.length h)%nat ->
                  Store.load h' l = Store.load h l)
    /\ Store.deref_props h' props = Store.deref_props h props
    /\ (forall (later : Window) (st2 : HubState nat),
          exists st'' h'',
            Store.messageHandler props later "ebs-infohub-run" st2 h'
            = Some (st'', h'')
            /\ messageHandler (Store.deref_props h props) later
                 "ebs-infohub-run" (Store.deref_state h' st2)
               = Some (Store.deref_state h'' st'')).
Proof.
  intros Hall.
  destruct (messageHandler_refines props win eventName st h Hall)
    as (st' & ext & Hrun & _).
  exists st', (h ++ ext). split; [assumption|].
  split; [intros l Hl; now apply StoreFacts.load_app|].
  split; [now apply StoreFacts.deref_props_app|].
  intros later st2.
  destruct (messageHandler_refines props later "ebs-infohub-run" st2
              (h ++ ext) (StoreFacts.allocated_app h ext props Hall))
    as (st'' & ext' & Hrun' & Hval).
  exists st'', ((h ++ ext) ++ ext'). split; [assumption|].
  now rewrite StoreFacts.deref_props_app in Hval.
Qed.

Lemma run_leaves_configuration_untouched_witness :
  exists st' h',
    Store.messageHandler (host := Engine.host) SampleRun.launchShop
      SampleRun.mobilePage "ebs-infohub-run" initialState
      SampleRun.launchStore = Some (st', h')
    /\ Store.load h' 0 = Store.load SampleRun.launchStore 0.
Proof.
  destruct (run_leaves_configuration_untouched (host := Engine.host)
              SampleRun.launchShop SampleRun.mobilePage "ebs-infohub-run"
              initialState SampleRun.launchStore)
    as (st' & h' & Hrun & Hframe & _).
  - split; repeat constructor.
  - exists st', h'. split; [exact Hrun|]. apply Hframe. repeat constructor.
Defined.

(** The scheduled post is held back in 2026, its object in the store is
    still switched on after that run, and a run in 3000 on the store the
    first run left shows it. *)
Example scheduled_post_shown_on_later_run :
  match Store.messageHandler (host := Engine.host) SampleRun.launchShop
          SampleRun.mobilePage "ebs-infohub-run" initialState
          SampleRun.launchStore with
  | Some (st', h') =>
      map (Store.load h') (postsState st')
      = [Sample.post "B17" "/b17" true EmptyString]
      /\ active (Store.load h' 0) = true
      /\ match Store.messageHandler (host := Engine.host)
                 SampleRun.launchShop SampleRun.laterPage "ebs-infohub-run"
                 st' h' with
         | Some (st'', h'') =>
             map p_editorItemTitle (map (Store.load h'') (postsState st''))
             = ["Launch"%string; "B17"%string]
         | None => False
         end
  | None => False
  end.
Proof. vm_compute. repeat split. Qed.

(** The count behind the gate reads the [active] flags only: a pinned post
    scheduled for 2999 is counted although the activation filter drops it,
    and the one topic post that remains is not rendered. *)
Example gate_counts_scheduled_pinned_post :
  let shop :=
    {| titleText := EmptyString;
       articles := [Sample.topicOf 0 "saddle"
                      [Sample.post "B17" "/b17" true EmptyString]];
       priority := [Sample.launch] |} in
  countActivePriority shop = 1%nat
  /\ prioritySurvivors (host := Engine.host) shop SampleRun.saddlePage = 0%nat
  /\ assembledPosts (host := Engine.host) shop SampleRun.saddlePage
     = [Sample.post "B17" "/b17" true EmptyString]
  /\ option_map (render (host := Engine.host) SampleRun.saddlePage)
       (messageHandler (host := Engine.host) shop SampleRun.saddlePage
          "ebs-infohub-run" initialState)
     = Some None.
Proof. vm_compute. repeat split. Qed.

(** * More of the component *)

From Stdlib Require Import Sorted.

(** ** The pipeline returns, the match set is ordered *)

Lemma StronglySorted_filter {A : Type} (R : A -> A -> Prop)
    (f : A -> bool) (l : list A) :
  StronglySorted R l -> StronglySorted R (filter f l).
Proof.
  induction 1 as [|a l Hs IH Ha]; simpl; [constructor|].
  destruct (f a); [|assumption]. constructor; [assumption|].
  apply Forall_forall. intros x Hx. apply filter_In in Hx as [Hx _].
  rewrite Forall_forall in Ha. auto.
Qed.

Lemma StronglySorted_snoc {A : Type} (R : A -> A -> Prop) (l : list A)
    (x : A) :
  StronglySorted R l -> Forall (fun y => R y x) l ->
  StronglySorted R (l ++ [x]).
Proof.
  induction 1 as [|a l Hs IH Ha]; simpl; intros Hx.
  - repeat constructor.
  - inversion Hx as [|? ? Hax Hlx]; subst. constructor; [auto|].
    apply Forall_app. split; [assumption|]. now constructor.
Qed.

(** Topic numbers come out of [forEach] in ascending order. *)
Lemma forEach_index_sorted {A : Type} (g : A -> nat -> list KeywordInfoObject)
    (l : list A) :
  (forall a i kw, In kw (g a i) -> topic kw = Z.of_nat i) ->
  forall i0,
    StronglySorted Z.le (map topic (forEach_index g l i0))
    /\ Forall (fun t => Z.of_nat i0 <= t) (map topic (forEach_index g l i0)).
Proof.
  intros Hg. induction l as [|a l IH]; intros i0; simpl.
  - split; constructor.
  - destruct (IH (S i0)) as [Hs Hge]. rewrite map_app.
    assert (Hhere : Forall (fun t => t = Z.of_nat i0) (map topic (g a i0))).
    { apply Forall_forall. intros t Ht.
      apply in_map_iff in Ht as (kw & <- & Hkw). now apply Hg in Hkw. }
    split.
    + induction (map topic (g a i0)) as [|t ts IHt]; simpl; [assumption|].
      inversion Hhere as [|? ? Ht Hts]; subst. constructor; [auto|].
      apply Forall_app. split.
      * eapply Forall_impl; [|exact Hts]. simpl. intros; lia.
      * eapply Forall_impl; [|exact Hge]. simpl. intros; lia.
    + apply Forall_app. split.
      * eapply Forall_impl; [|exact Hhere]. simpl. intros; lia.
      * eapply Forall_impl; [|exact Hge]. simpl. intros; lia.
Qed.

Lemma Set_of_sorted (l : list Z) :
  StronglySorted Z.le l -> StronglySorted Z.lt (Set_of l).
Proof.
  unfold Set_of.
  assert (H : forall acc,
             StronglySorted Z.lt acc ->
             Forall (fun a => Forall (fun x => a <= x) l) acc ->
             StronglySorted Z.le l ->
             StronglySorted Z.lt
               (fold_left (fun s x => Set_add x s) l acc)).
  { induction l as [|x l IH]; intros acc Hacc Hle Hl; simpl; [assumption|].
    inversion Hl as [|? ? Hl' Hx]; subst.
    apply IH; [| |assumption].
    - unfold Set_add. destruct (existsb (Z.eqb x) acc) eqn:He; [assumption|].
      apply StronglySorted_snoc; [assumption|].
      apply Forall_forall. intros a Ha.
      rewrite Forall_forall in Hle. specialize (Hle a Ha).
      inversion Hle as [|? ? Hax _]; subst.
      assert (a <> x); [|lia]. intros ->.
      assert (existsb (Z.eqb x) acc = true); [|congruence].
      apply existsb_exists. exists x. split; [assumption|apply Z.eqb_refl].
    - apply Forall_forall. intros a Ha. apply Set_add_In in Ha as [->|Ha].
      + assumption.
      + rewrite Forall_forall in Hle. specialize (Hle a Ha).
        now inversion Hle. }
  intros Hl. apply H; [constructor|constructor|assumption].
Qed.

Lemma StronglySorted_lt_NoDup (l : list Z) :
  StronglySorted Z.lt l -> NoDup l.
Proof.
  induction 1 as [|a l Hs IH Ha]; constructor; [|assumption].
  intros Hin. rewrite Forall_forall in Ha. specialize (Ha a Hin). lia.
Qed.

Section MatchSet.

Context {host : Host}.
Variable P : Type.
Variable props : InfoHubv3Props P.
Variable win : Window.

Lemma keywordList_topics_sorted :
  StronglySorted Z.le (map topic (keywordList props)).
Proof.
  unfold keywordList. apply forEach_index_sorted.
  intros a i kw Hkw. rewrite map_map in Hkw.
  apply in_map_iff in Hkw as (k & <- & _). reflexivity.
Qed.

Lemma topicBuilder_filter (kl : list KeywordInfoObject) :
  Forall (fun kw => 0 <= topic kw) kl ->
  topicBuilder win kl
  = map topic (filter (fun kw => includes (currentURL win) (keyword kw)) kl).
Proof.
  unfold topicBuilder. induction 1 as [|kw kl Hkw _ IH]; simpl; [reflexivity|].
  destruct (includes (currentURL win) (keyword kw)); simpl.
  - destruct (Z.eqb_spec (topic kw) (-1)); [lia|]. simpl. now rewrite IH.
  - assumption.
Qed.

Lemma keywordList_topics_nonneg :
  Forall (fun kw => 0 <= topic kw) (keywordList props).
Proof.
  apply Forall_forall. intros kw Hkw.
  apply keywordList_In in Hkw as (i & a & k & _ & _ & ->). simpl. lia.
Qed.

Lemma StronglySorted_map_filter (f : KeywordInfoObject -> bool)
    (kl : list KeywordInfoObject) :
  StronglySorted Z.le (map topic kl) ->
  StronglySorted Z.le (map topic (filter f kl)).
Proof.
  induction kl as [|kw kl IH]; simpl; [auto|]. intros H.
  inversion H as [|? ? Hs Ha]; subst. destruct (f kw); simpl; [|auto].
  constructor; [auto|]. apply Forall_forall. intros t Ht.
  apply in_map_iff in Ht as (kw' & <- & Hin). apply filter_In in Hin as [Hin _].
  rewrite Forall_forall in Ha. apply Ha. now apply in_map.
Qed.

Lemma finalTopics_sorted :
  StronglySorted Z.lt (finalTopics win (keywordList props)).
Proof.
  unfold finalTopics. apply Set_of_sorted.
  rewrite topicBuilder_filter by apply keywordList_topics_nonneg.
  apply StronglySorted_map_filter, keywordList_topics_sorted.
Qed.

(** X2: the match set lists topic positions of the configuration in
    strictly ascending order, each of them a position of [articles]; a
    topic without keywords is never in it. *)
Theorem match_set_ascending_in_range :
  StronglySorted Z.lt (finalTopics win (keywordList props))
  /\ NoDup (finalTopics win (keywordList props))
  /\ (forall t, In t (finalTopics win (keywordList props)) ->
                0 <= t < Z.of_nat (List.length (articles props)))
  /\ (forall i article,
        nth_error (articles props) i = Some article ->
        keywords article = [] ->
        ~ In (Z.of_nat i) (finalTopics win (keywordList props))).
Proof.
  split; [apply finalTopics_sorted|].
  split; [apply StronglySorted_lt_NoDup, finalTopics_sorted|]. split.
  - intros t Ht. apply finalTopics_In in Ht as (i & a & k & -> & Hi & _).
    assert (i < List.length (articles props))%nat
      by (apply nth_error_Some; congruence).
    lia.
  - intros i article Hi Hk Hin.
    apply finalTopics_In in Hin as (j & a & k & Hij & Hj & Hin & _).
    apply Nat2Z.inj in Hij. subst j. rewrite Hi in Hj. injection Hj as <-.
    rewrite Hk in Hin. destruct Hin.
Qed.

(** X3: on every engine the ranker hands [buildPosts] a permutation of the
    match set, without repetition, and the reduce answers the posts of
    those topics, topic after topic in that order, each topic's posts in
    their configured order. *)
Theorem ranker_permutes_match_set :
  exists sorted,
    sortedFinalTopics props (finalTopics win (keywordList props))
    = Some sorted
    /\ Permutation sorted (finalTopics win (keywordList props))
    /\ NoDup sorted
    /\ postBuilder props sorted
       = Some (flat_map
                 (fun t => match lookup_article (articles props) t with
                           | Some article => posts article
                           | None => []
                           end) sorted)
    /\ (forall t, In t sorted ->
          exists article, lookup_article (articles props) t = Some article).
Proof.
  destruct (ranked_some P props win) as (Hs & Hp & Hb).
  exists (rankedTopics props win). split; [assumption|].
  split; [assumption|]. split.
  - apply (Permutation_NoDup (Permutation_sym Hp)).
    apply StronglySorted_lt_NoDup, finalTopics_sorted.
  - split; [exact Hb|]. intros t Ht.
    apply (finalTopics_lookup P props win). now apply (Permutation_in _ Hp).
Qed.

End MatchSet.


Lemma match_set_ascending_in_range_witness :
  ~ In 0 (finalTopics (host := Engine.host) SampleRun.cartPage
            (keywordList (host := Engine.host)
               {| titleText := EmptyString;
                  articles := [ {| a_editorItemTitle := EmptyString;
                                   keywords := [];
                                   topicType := 0;
                                   posts := [Sample.launch] |} ];
                  priority := [] |})).
Proof.
  apply (proj2 (proj2 (proj2
           (match_set_ascending_in_range (host := Engine.host) PostObject
              {| titleText := EmptyString;
                 articles := [ {| a_editorItemTitle := EmptyString;
                                  keywords := [];
                                  topicType := 0;
                                  posts := [Sample.launch] |} ];
                 priority := [] |}
              SampleRun.cartPage)))
           0%nat
           {| a_editorItemTitle := EmptyString; keywords := [];
              topicType := 0; posts := [Sample.launch] |}).
  - reflexivity.
  - reflexivity.
Defined.

(** ** What passes the activation filter *)

Section ActivationFacts.

Context {host : Host}.

Lemma set_active_same (post : PostObject) :
  set_active (active post) post = post.
Proof. now destruct post. Qed.

Lemma tempPost_set_active (rightNow : Z) (post : PostObject) :
  tempPost rightNow post = set_active (active (tempPost rightNow post)) post.
Proof.
  unfold tempPost. destruct (Date_parse (startDate post)) as [t|].
  - destruct (t =? 0); [now rewrite set_active_same|].
    now destruct (t >? rightNow).
  - now rewrite set_active_same.
Qed.

Lemma activePosts_In (rightNow : Z) (pb : list PostObject) (q : PostObject) :
  In q (activePosts rightNow pb) <->
  exists p, In p pb /\ q = set_active true p
            /\ active (tempPost rightNow p) = true.
Proof.
  unfold activePosts, postsWithInactive. rewrite filter_In, in_map_iff. split.
  - intros [(p & <- & Hp) Ha]. exists p.
    repeat split; [assumption| |assumption].
    rewrite (tempPost_set_active rightNow p) at 1. now rewrite Ha.
  - intros (p & Hp & -> & Ha). split.
    + exists p. split; [|assumption].
      rewrite (tempPost_set_active rightNow p) at 1. now rewrite Ha.
    + reflexivity.
Qed.

(** X4: every post that leaves the activation filter is switched on and is
    a post of the input in every other field, and the start date of that
    post, when it parses to a non-zero instant, is not after now: a post
    scheduled for the future never passes, whatever its flag.  The posts
    that pass keep the order they had. *)
Theorem activation_filter_sound (rightNow : Z) (pb : list PostObject) :
  (forall q, In q (activePosts rightNow pb) ->
     active q = true
     /\ exists p,
          In p pb /\ q = set_active true p
          /\ startDate q = startDate p
          /\ p_editorItemTitle q = p_editorItemTitle p
          /\ image q = image p /\ url q = url p
          /\ (forall t, Date_parse (startDate p) = Some t -> t <> 0 ->
                        t <= rightNow))
  /\ (forall p t, Date_parse (startDate p) = Some t -> t <> 0 ->
        rightNow < t -> activePosts rightNow [p] = [])
  /\ (forall l1 l2, activePosts rightNow (l1 ++ l2)
                    = activePosts rightNow l1 ++ activePosts rightNow l2).
Proof.
  split; [|split].
  - intros q Hq. apply activePosts_In in Hq as (p & Hp & -> & Ha).
    split; [reflexivity|]. exists p. repeat split; try assumption.
    intros t Ht Hne. rewrite tempPost_active, Ht in Ha.
    destruct (Z.eqb_spec t 0); [contradiction|].
    apply negb_true_iff in Ha.
    destruct (Z.gtb_spec t rightNow); [discriminate|].
    lia.
  - intros p t Ht Hne Hlt. rewrite activePosts_one, tempPost_active, Ht.
    destruct (Z.eqb_spec t 0); [contradiction|].
    destruct (Z.gtb_spec t rightNow); [reflexivity|lia].
  - apply activePosts_app.
Qed.

End ActivationFacts.

Lemma activation_filter_sound_witness :
  activePosts (host := Engine.host) Sample.in2026 [Sample.launch] = [].
Proof.
  apply (proj1 (proj2 (activation_filter_sound (host := Engine.host)
                         Sample.in2026 [Sample.launch]))
           Sample.launch 32472144000000).
  - reflexivity.
  - discriminate.
  - reflexivity.
Defined.

(** ** What deduplication keeps *)

Lemma existsb_sameTitle_In (p : PostObject) (u : list PostObject) :
  existsb (sameTitle p) u = true
  <-> In (p_editorItemTitle p) (map p_editorItemTitle u).
Proof.
  rewrite existsb_exists, in_map_iff. split.
  - intros (q & Hq & Hs). exists q. split; [|assumption].
    symmetry. now apply sameTitle_eq.
  - intros (q & Hs & Hq). exists q. split; [assumption|].
    apply sameTitle_eq. now symmetry.
Qed.

Lemma distinctTitles_NoDup (u : list PostObject) :
  distinctTitles u -> NoDup (map p_editorItemTitle u).
Proof.
  induction u as [|p u IH]; simpl; [constructor|]. intros [Hp Hu].
  constructor; [|auto]. intros Hin. apply existsb_sameTitle_In in Hin.
  congruence.
Qed.

Lemma uniquePosts_titles (l : list PostObject) :
  map p_editorItemTitle (uniquePosts l)
  = map p_editorItemTitle (firstSeen l).
Proof.
  rewrite uniquePosts_char, map_map. apply map_ext. apply lastWithTitle_title.
Qed.

Lemma uniquePosts_NoDup (l : list PostObject) :
  NoDup (map p_editorItemTitle (uniquePosts l)).
Proof.
  rewrite uniquePosts_titles. apply distinctTitles_NoDup, firstSeen_distinct.
Qed.

Lemma lastWithTitle_In (l : list PostObject) (p : PostObject) :
  In p l -> In (lastWithTitle l p) l.
Proof.
  intros Hp. unfold lastWithTitle.
  destruct (find (sameTitle p) (rev l)) as [q|] eqn:Hf; [|assumption].
  apply find_some in Hf as [Hq _]. now apply in_rev.
Qed.

Lemma uniquePosts_In (l : list PostObject) (q : PostObject) :
  In q (uniquePosts l) -> In q l.
Proof.
  rewrite uniquePosts_char. intros H.
  apply in_map_iff in H as (p & <- & Hp).
  apply lastWithTitle_In. now apply firstSeen_In.
Qed.

Lemma firstSeen_length (l : list PostObject) :
  (List.length (firstSeen l) <= List.length l)%nat.
Proof.
  induction l as [|p l IH]; simpl; [lia|].
  pose proof (filter_length_le (fun q => negb (sameTitle p q)) (firstSeen l)).
  lia.
Qed.

Lemma setPost_fresh (p : PostObject) (u : list PostObject) :
  ~ In (p_editorItemTitle p) (map p_editorItemTitle u) ->
  setPost p u = u ++ [p].
Proof.
  induction u as [|q u IH]; simpl; [reflexivity|]. intros H.
  destruct (sameTitle q p) eqn:Hqp.
  - exfalso. apply H. left. now apply sameTitle_eq.
  - rewrite IH; [reflexivity|]. intros Hin. apply H. now right.
Qed.

Lemma uniquePosts_distinct (l : list PostObject) :
  NoDup (map p_editorItemTitle l) -> uniquePosts l = l.
Proof.
  induction l as [|p l IH] using rev_ind; [reflexivity|].
  rewrite map_app. simpl. intros H. apply NoDup_remove in H as [Hl Hp].
  rewrite app_nil_r in *. rewrite uniquePosts_snoc, (IH Hl).
  now apply setPost_fresh.
Qed.

(** X5: the list [removeDuplicatePosts] hands on has no two posts with one
    title, has exactly the titles of the list it was given, holds only
    posts of that list, and is no longer than it. *)
Theorem dedup_distinct_and_complete (ap : list PostObject) :
  NoDup (map p_editorItemTitle (uniquePosts ap))
  /\ (forall title : string,
        In title (map p_editorItemTitle (uniquePosts ap))
        <-> In title (map p_editorItemTitle ap))
  /\ (forall q, In q (uniquePosts ap) -> In q ap)
  /\ (List.length (uniquePosts ap) <= List.length ap)%nat.
Proof.
  split; [apply uniquePosts_NoDup|]. split; [|split].
  - intros title. split.
    + intros H. apply in_map_iff in H as (q & <- & Hq).
      apply in_map. now apply uniquePosts_In.
    + intros H. apply in_map_iff in H as (p & <- & Hp).
      rewrite uniquePosts_titles. apply existsb_sameTitle_In.
      rewrite firstSeen_exists. apply existsb_sameTitle_In. now apply in_map.
  - apply uniquePosts_In.
  - rewrite <- (length_map p_editorItemTitle (uniquePosts ap)).
    rewrite uniquePosts_titles, length_map. apply firstSeen_length.
Qed.

(** X6: a list whose titles are pairwise distinct passes deduplication
    unchanged, so deduplicating twice gives what deduplicating once gives. *)
Theorem dedup_idempotent (ap : list PostObject) :
  (NoDup (map p_editorItemTitle ap) -> uniquePosts ap = ap)
  /\ uniquePosts (uniquePosts ap) = uniquePosts ap.
Proof.
  split; [apply uniquePosts_distinct|].
  apply uniquePosts_distinct, uniquePosts_NoDup.
Qed.

Lemma dedup_distinct_and_complete_witness :
  In Sample.topicX [Sample.pinnedX; Sample.topicX].
Proof.
  apply (proj1 (proj2 (proj2 (dedup_distinct_and_complete
                                [Sample.pinnedX; Sample.topicX])))).
  left. reflexivity.
Defined.

Lemma dedup_idempotent_witness :
  uniquePosts [Sample.pinnedX; Sample.launch]
  = [Sample.pinnedX; Sample.launch].
Proof.
  apply (proj1 (dedup_idempotent [Sample.pinnedX; Sample.launch])).
  repeat constructor; simpl; intuition discriminate.
Defined.

(** ** What is rendered, and repeated messages *)

Lemma NoDup_firstn {A : Type} (n : nat) (l : list A) :
  NoDup l -> NoDup (firstn n l).
Proof.
  intros H. rewrite <- (firstn_skipn n l) in H.
  now apply NoDup_app_remove_r in H.
Qed.

Lemma postsOf_In {P : Type} (props : InfoHubv3Props P) (sorted : list Z)
    (p : P) :
  In p (postsOf props sorted) ->
  exists t article,
    In t sorted /\ lookup_article (articles props) t = Some article
    /\ In p (posts article).
Proof.
  unfold postsOf. intros H. apply in_flat_map in H as (t & Ht & H).
  destruct (lookup_article (articles props) t) as [a|] eqn:Hl; [|destruct H].
  now exists t, a.
Qed.

Lemma fold_count (l : list PostObject) :
  forall n : nat,
    fold_left (fun accumulator post =>
                 (accumulator + (if active post then 1 else 0))%nat) l n
    = (n + List.length (filter active l))%nat.
Proof.
  induction l as [|p l IH]; intros n; simpl; [lia|].
  rewrite IH. destruct (active p); simpl; lia.
Qed.

Lemma countActivePriority_filter (props : InfoHubv3Props PostObject) :
  countActivePriority props = List.length (filter active (priority props)).
Proof. unfold countActivePriority. now rewrite fold_count. Qed.

(** The messages of a list handled one after the other. *)
Fixpoint handleAll {host : Host} (props : InfoHubv3Props PostObject)
    (win : Window) (events : list string) (st : HubState PostObject)
  : option (HubState PostObject) :=
  match events with
  | [] => Some st
  | eventName :: rest =>
      match messageHandler props win eventName st with
      | Some st' => handleAll props win rest st'
      | None => None
      end
  end.

Section Rendered.

Context {host : Host}.
Variable props : InfoHubv3Props PostObject.
Variable win : Window.

Lemma run_rendered (st st' : HubState PostObject) (ps : list PostObject) :
  messageHandler props win "ebs-infohub-run" st = Some st' ->
  render win st' = Some ps ->
  st' = {| loading := false;
           postsState := truncated (deviceOf win) (assembledPosts props win);
           device := deviceOf win;
           activePriorityPosts := countActivePriority props |}
  /\ ps = truncated (deviceOf win) (assembledPosts props win)
  /\ ps <> []
  /\ List.length ps <> countActivePriority props.
Proof.
  intros Hrun Hr.
  assert (Hs : showInfoHub win = true).
  { unfold render in Hr. now destruct (showInfoHub win). }
  pose proof (showInfoHub_DOM win Hs) as Hdom.
  unfold messageHandler in Hrun. rewrite Hs in Hrun. simpl in Hrun.
  destruct (finalTopics win (keywordList props)) eqn:Hm.
  - rewrite (resetInfoHub_no_match props win st Hdom Hm) in Hrun.
    injection Hrun as <-. now rewrite render_empty in Hr.
  - rewrite (resetInfoHub_match props win st Hdom) in Hrun
      by (rewrite Hm; discriminate).
    injection Hrun as <-. split; [reflexivity|].
    pose proof (render_some win _ ps Hr) as Hps. simpl in Hps.
    split; [assumption|].
    assert (Hn : render win
                   {| loading := false;
                      postsState :=
                        truncated (deviceOf win) (assembledPosts props win);
                      device := deviceOf win;
                      activePriorityPosts := countActivePriority props |}
                 <> None) by congruence.
    rewrite render_none in Hn by auto. simpl in Hn. rewrite <- Hps in Hn.
    split; intros H; apply Hn; auto.
Qed.

(** X7: whenever a run ends with something rendered, the rendered list is
    not empty, has at most 10 posts for a width of 1026 or more and at
    most 6 below, has no two posts with one title, holds only posts that
    are switched on, each of them a post of the priority list or of a
    topic in the match set in every field but [active], and its length
    differs from the number of priority posts whose flag is set. *)
Theorem rendered_list_invariant (st st' : HubState PostObject)
    (ps : list PostObject) :
  messageHandler props win "ebs-infohub-run" st = Some st' ->
  render win st' = Some ps ->
  ps <> []
  /\ (List.length ps <= if innerWidth win >=? 1026 then 10 else 6)%nat
  /\ NoDup (map p_editorItemTitle ps)
  /\ Forall (fun q => active q = true) ps
  /\ (forall q, In q ps ->
        exists p,
          (In p (priority props)
           \/ exists t article,
                In t (finalTopics win (keywordList props))
                /\ lookup_article (articles props) t = Some article
                /\ In p (posts article))
          /\ q = set_active true p)
  /\ List.length ps
     <> List.length (filter active (priority props)).
Proof.
  intros Hrun Hr.
  destruct (run_rendered st st' ps Hrun Hr) as (_ & Hps & Hne & Hc).
  rewrite truncated_firstn in Hps.
  assert (Hin : forall q, In q ps ->
            In q (activePosts (Date_now win)
                    (priorityWithArticles props
                       (postsOf props (rankedTopics props win))))).
  { intros q Hq. rewrite Hps in Hq. apply firstn_In in Hq.
    now apply uniquePosts_In in Hq. }
  split; [assumption|]. split.
  { rewrite Hps. replace (if innerWidth win >=? 1026 then 10%nat else 6%nat)
      with (cap (deviceOf win))
      by (unfold deviceOf; now destruct (innerWidth win >=? 1026)).
    apply firstn_le_length. }
  split.
  { rewrite Hps, <- firstn_map. apply NoDup_firstn, uniquePosts_NoDup. }
  split.
  { apply Forall_forall. intros q Hq. apply Hin in Hq.
    apply activePosts_In in Hq as (p & _ & -> & _). reflexivity. }
  split.
  { intros q Hq. apply Hin in Hq.
    apply activePosts_In in Hq as (p & Hp & -> & _). exists p.
    split; [|reflexivity]. unfold priorityWithArticles in Hp.
    apply in_app_iff in Hp as [Hp|Hp]; [now left|right].
    apply postsOf_In in Hp as (t & a & Ht & Hl & Hp). exists t, a.
    destruct (ranked_some PostObject props win) as (_ & Hperm & _).
    split; [now apply (Permutation_in _ Hperm)|auto]. }
  now rewrite <- countActivePriority_filter.
Qed.

Lemma messageHandler_fixed (st st' : HubState PostObject) :
  messageHandler props win "ebs-infohub-run" st = Some st' ->
  forall eventName, messageHandler props win eventName st' = Some st'.
Proof.
  intros Hrun eventName. unfold messageHandler in *.
  destruct (showInfoHub win) eqn:Hs; simpl in *; [|reflexivity].
  destruct (String.eqb eventName "ebs-infohub-run"); [|reflexivity].
  pose proof (showInfoHub_DOM win Hs) as Hdom.
  destruct (finalTopics win (keywordList props)) eqn:Hm.
  - rewrite (resetInfoHub_no_match props win st Hdom Hm) in Hrun.
    injection Hrun as <-.
    now rewrite (resetInfoHub_no_match props win _ Hdom Hm).
  - assert (Hne : finalTopics win (keywordList props) <> [])
      by (rewrite Hm; discriminate).
    rewrite (resetInfoHub_match props win st Hdom Hne) in Hrun.
    injection Hrun as <-. now apply resetInfoHub_match.
Qed.

Lemma handleAll_fixed (events : list string) (st : HubState PostObject) :
  (forall eventName, messageHandler props win eventName st = Some st) ->
  handleAll props win events st = Some st.
Proof.
  intros H. induction events as [|e es IH]; simpl; [reflexivity|].
  now rewrite H.
Qed.

(** X8: a run replaces what the run before it left: handling any list of
    messages gives the state one trigger message gives when the list
    holds a trigger message, and leaves the state alone when it holds
    none.  In particular a second trigger changes nothing. *)
Theorem message_burst_is_one_run (events : list string)
    (st : HubState PostObject) :
  handleAll props win events st
  = if existsb (fun e => String.eqb e "ebs-infohub-run") events
    then messageHandler props win "ebs-infohub-run" st
    else Some st.
Proof.
  revert st. induction events as [|e es IH]; intros st; simpl;
    [reflexivity|].
  destruct (String.eqb_spec e "ebs-infohub-run") as [->|Hne]; simpl.
  - destruct (messageHandler props win "ebs-infohub-run" st) as [st'|] eqn:Hrun;
      [|reflexivity].
    apply handleAll_fixed. now apply (messageHandler_fixed st).
  - assert (He : messageHandler props win e st = Some st).
    { unfold messageHandler. destruct (negb (showInfoHub win)); [reflexivity|].
      apply String.eqb_neq in Hne. now rewrite Hne. }
    rewrite He. apply IH.
Qed.

End Rendered.

Lemma rendered_list_invariant_witness :
  NoDup (map p_editorItemTitle
           [Sample.pinnedX; Sample.post "B17" "/b17" true EmptyString])
  /\ Forall (fun q => active q = true)
       [Sample.pinnedX; Sample.post "B17" "/b17" true EmptyString].
Proof.
  destruct (rendered_list_invariant (host := Engine.host) SampleRun.shop
              SampleRun.saddlePage initialState
              {| loading := false;
                 postsState :=
                   [Sample.pinnedX;
                    Sample.post "B17" "/b17" true EmptyString];
                 device := desktop; activePriorityPosts := 1 |}
              [Sample.pinnedX; Sample.post "B17" "/b17" true EmptyString])
    as (_ & _ & H1 & H2 & _).
  - reflexivity.
  - reflexivity.
  - split; assumption.
Defined.

(** ** The section and its expanding window *)

Record WindowObject := { height : Z; expanded : bool }.

Definition imageSize_width : Z := 250.
Definition imageSize_height : Z := 110.

Definition initialWindowState : WindowObject :=
  {| height := imageSize_height + 2; expanded := false |}.

(** [handleWindowExpand], given the height the browser measures for the
    list ([wrapper.current.offsetHeight]). *)
Definition handleWindowExpand (offsetHeight : Z) (windowProps : WindowObject)
  : WindowObject :=
  if expanded windowProps then initialWindowState
  else {| height := offsetHeight; expanded := true |}.

Inductive WrapperClass := flexWrapper | gridWrapper.

Record ButtonView := { ariaExpanded : bool; buttonText : string }.

(** What the returned [section] holds: the heading and whether it is only
    for screen readers, the height of the article window, the class of the
    list, the posts listed and the button, if any. *)
Record SectionView := {
  headingText : string;
  headingSrOnly : bool;
  windowHeight : Z;
  wrapperClass : WrapperClass;
  listItems : list PostObject;
  button : option ButtonView
}.

Definition sectionView (title : string) (windowProps : WindowObject)
    (ps : list PostObject) : SectionView :=
  {| headingText :=
       if String.eqb title EmptyString then "Related Articles" else title;
     headingSrOnly := String.eqb title EmptyString;
     windowHeight := height windowProps;
     wrapperClass :=
       if (List.length ps <=? 5)%nat then flexWrapper else gridWrapper;
     listItems := ps;
     button :=
       if (5 <? List.length ps)%nat
       then Some {| ariaExpanded := expanded windowProps;
                    buttonText :=
                      ("Show "
                       ++ (if expanded windowProps then "Fewer" else "More")
                       ++ " Articles")%string |}
       else None |}.

(** The component's return value: [None] is the empty fragment. *)
Definition InfoHubv3 {host : Host} (props : InfoHubv3Props PostObject)
    (win : Window) (st : HubState PostObject) (windowProps : WindowObject)
  : option SectionView :=
  match render win st with
  | Some ps => Some (sectionView (titleText props) windowProps ps)
  | None => None
  end.

(** The button clicked once for each measured height of the list. *)
Definition clicks (heights : list Z) (windowProps : WindowObject)
  : WindowObject :=
  fold_left (fun w offsetHeight => handleWindowExpand offsetHeight w)
            heights windowProps.

(** X10: starting from the initial window, an even number of clicks on
    the button leaves the window collapsed at 112 pixels and an odd number
    leaves it expanded at the height measured at the last click; each
    click flips [expanded]. *)
Theorem expand_button_toggles (heights : list Z) :
  clicks heights initialWindowState
  = (if Nat.even (List.length heights)
     then {| height := 112; expanded := false |}
     else {| height := last heights 112; expanded := true |})
  /\ (forall offsetHeight w,
        expanded (handleWindowExpand offsetHeight w) = negb (expanded w))
  /\ (forall h1 h2 w,
        expanded w = false ->
        handleWindowExpand h2 (handleWindowExpand h1 w) = initialWindowState).
Proof.
  split; [|split].
  - induction heights as [|h heights IH] using rev_ind; [reflexivity|].
    unfold clicks in *. rewrite fold_left_app, IH, length_app. simpl.
    rewrite Nat.add_1_r, Nat.even_succ, <- Nat.negb_even.
    rewrite last_last.
    now destruct (Nat.even (List.length heights)).
  - intros offsetHeight w. unfold handleWindowExpand.
    now destruct (expanded w).
  - intros h1 h2 w Hw. unfold handleWindowExpand. now rewrite Hw.
Qed.

Lemma expand_button_toggles_witness :
  handleWindowExpand 300 (handleWindowExpand 480 initialWindowState)
  = initialWindowState.
Proof.
  apply (proj2 (proj2 (expand_button_toggles [480; 300]))).
  reflexivity.
Defined.

Section View.

Context {host : Host}.
Variable props : InfoHubv3Props PostObject.
Variable win : Window.

(** X9: when a run ends with a section rendered, the section lists the
    rendered posts; the button is there exactly when more than five posts
    are listed, which is exactly when the list has the grid class, and on
    a width below 1026 exactly when six posts are listed; the heading is
    never empty, and is only for screen readers exactly when no title
    text is configured. *)
Theorem section_button_and_layout (st st' : HubState PostObject)
    (windowProps : WindowObject) (view : SectionView) :
  messageHandler props win "ebs-infohub-run" st = Some st' ->
  InfoHubv3 props win st' windowProps = Some view ->
  render win st' = Some (listItems view)
  /\ (button view <> None <-> (5 < List.length (listItems view))%nat)
  /\ (button view <> None <-> wrapperClass view = gridWrapper)
  /\ (innerWidth win < 1026 ->
      (button view <> None <-> List.length (listItems view) = 6%nat))
  /\ (forall b, button view = Some b ->
        ariaExpanded b = expanded windowProps
        /\ buttonText b = if expanded windowProps
                          then "Show Fewer Articles"%string
                          else "Show More Articles"%string)
  /\ headingText view <> EmptyString
  /\ (headingSrOnly view = true <-> titleText props = EmptyString)
  /\ windowHeight view = height windowProps.
Proof.
  intros Hrun Hview. unfold InfoHubv3 in Hview.
  destruct (render win st') as [ps|] eqn:Hr; [|discriminate].
  injection Hview as <-. simpl.
  assert (Hcap : (List.length ps
                  <= if innerWidth win >=? 1026 then 10 else 6)%nat).
  { destruct (run_rendered props win st st' ps Hrun Hr) as (_ & -> & _).
    rewrite truncated_firstn.
    replace (if innerWidth win >=? 1026 then 10%nat else 6%nat)
      with (cap (deviceOf win))
      by (unfold deviceOf; now destruct (innerWidth win >=? 1026)).
    apply firstn_le_length. }
  split; [reflexivity|].
  assert (Hb : (if (5 <? List.length ps)%nat
                then Some {| ariaExpanded := expanded windowProps;
                             buttonText :=
                               ("Show "
                                ++ (if expanded windowProps
                                    then "Fewer" else "More")
                                ++ " Articles")%string |}
                else None) <> None <-> (5 < List.length ps)%nat).
  { destruct (Nat.ltb_spec 5 (List.length ps)); split; intros H';
      try congruence; try lia. }
  split; [exact Hb|]. split.
  { rewrite Hb. destruct (Nat.leb_spec (List.length ps) 5); split;
      intros H'; try congruence; try lia. }
  split.
  { intros Hw. rewrite Hb.
    destruct (Z.geb_spec (innerWidth win) 1026); [lia|]. lia. }
  split.
  { intros b Hbv. destruct (5 <? List.length ps)%nat; [|discriminate].
    injection Hbv as <-. simpl. now destruct (expanded windowProps). }
  split.
  { destruct (String.eqb_spec (titleText props) EmptyString);
      [discriminate|assumption]. }
  split; [apply String.eqb_eq|reflexivity].
Qed.

End View.

Lemma section_button_and_layout_witness :
  headingText
    (sectionView (titleText SampleRun.shop) initialWindowState
       [Sample.pinnedX; Sample.post "B17" "/b17" true EmptyString])
  <> EmptyString.
Proof.
  destruct (section_button_and_layout (host := Engine.host) SampleRun.shop
              SampleRun.saddlePage initialState
              {| loading := false;
                 postsState :=
                   [Sample.pinnedX;
                    Sample.post "B17" "/b17" true EmptyString];
                 device := desktop; activePriorityPosts := 1 |}
              initialWindowState
              (sectionView (titleText SampleRun.shop) initialWindowState
                 [Sample.pinnedX;
                  Sample.post "B17" "/b17" true EmptyString]))
    as (_ & _ & _ & _ & _ & H & _).
  - reflexivity.
  - reflexivity.
  - exact H.
Defined.

(** * The earlier revision of the component

    The first component of [react/InfoHubv3.tsx] (the one without
    [showInfoHub]) differs from the latest in three functions:
    [searchCurrentURL] takes the text after [.com/] in the full address,
    [removeInactivePosts] writes to the post objects of the configuration,
    and [removeDuplicatePosts] splices the array it is iterating. *)

Module Previous.

(** ** [removeInactivePosts]: writes through to the configuration *)

Section Activation.

Context {host : Host}.

(** The callback of the [forEach]: [post.active = false] when the start
    date parses to a truthy number after now. *)
Definition deactivate (rightNow : Z) (h : Store.store) (post : nat)
  : Store.store :=
  match Date_parse (startDate (Store.load h post)) with
  | Some startDate =>
      if startDate =? 0 then h
      else
        let notYetActive := startDate >? rightNow in
        if notYetActive then Store.write_active post false h else h
  | None => h
  end.

(** [postsWithInactive] is a new array of the same references; the loop
    leaves the store it has written to. *)
Definition postsWithInactive (rightNow : Z) (pb : list nat)
    (h : Store.store) : Store.store :=
  fold_left (deactivate rightNow) pb h.

(** The array handed to [removeDuplicatePosts], and the store. *)
Definition activePosts (rightNow : Z) (pb : list nat) (h : Store.store)
  : list nat * Store.store :=
  let h1 := postsWithInactive rightNow pb h in
  (filter (fun post => active (Store.load h1 post)) pb, h1).

(** A start date that parses to a non-zero instant after now. *)
Definition scheduled (rightNow : Z) (post : PostObject) : bool :=
  match Date_parse (startDate post) with
  | Some t => negb (t =? 0) && (t >? rightNow)
  | None => false
  end.

End Activation.

(** ** [removeDuplicatePosts]: splicing the array being iterated *)

(** [arr.splice(index, 1)] *)
Definition splice1 {A : Type} (index : nat) (arr : list A) : list A :=
  firstn index arr ++ skipn (S index) arr.

(** One call of the inner callback.  [forEach] visits the indices below
    the length the array had when the loop began and skips an index that
    is no longer in the array. *)
Definition innerCallback (parentIndex : nat) (checkForTitle : string)
    (arr : list PostObject) (index : nat) : list PostObject :=
  match nth_error arr index with
  | Some post =>
      if negb (parentIndex =? index)%nat then
        let matchFound := String.eqb (p_editorItemTitle post) checkForTitle in
        if matchFound then splice1 index arr else arr
      else arr
  | None => arr
  end.

Definition outerCallback (arr : list PostObject) (parentIndex : nat)
  : list PostObject :=
  match nth_error arr parentIndex with
  | Some parentPost =>
      let checkForTitle := p_editorItemTitle parentPost in
      fold_left (innerCallback parentIndex checkForTitle)
                (seq 0 (List.length arr)) arr
  | None => arr
  end.

(** The array handed to [buildRender]. *)
Definition removeDuplicatePosts (postBuilder : list PostObject)
  : list PostObject :=
  fold_left outerCallback (seq 0 (List.length postBuilder)) postBuilder.

(** ** [searchCurrentURL]: the text after [.com/] *)

(** [s.split(sep)] for a separator that is not empty: [cur] is the piece
    being read and [skip] the characters of a separator still to pass. *)
Fixpoint split_go (sep s : string) (skip : nat) (cur : string)
  : list string :=
  match s with
  | EmptyString => [cur]
  | String c s' =>
      match skip with
      | S k => split_go sep s' k cur
      | O =>
          if String.prefix sep s
          then cur :: split_go sep s' (String.length sep - 1) EmptyString
          else split_go sep s' 0 (cur ++ String c EmptyString)%string
      end
  end.

Definition split (sep s : string) : list string :=
  split_go sep s 0 EmptyString.

(** [window.location.href.split(".com/")[1].toLowerCase()]: [None] is the
    TypeError of calling a method of [undefined]. *)
Definition currentURL {host : Host} (href : string) : option string :=
  match nth_error (split ".com/" href) 1 with
  | Some piece => Some (toLowerCase piece)
  | None => None
  end.

End Previous.

Module PreviousExamples.
Import Sample.

Example splice_leaves_duplicates :
  map url (Previous.removeDuplicatePosts
             [post "X" "/1" true EmptyString; post "X" "/2" true EmptyString;
              post "X" "/3" true EmptyString; post "X" "/4" true EmptyString;
              post "X" "/5" true EmptyString])
  = ["/3"%string; "/5"%string].
Proof. reflexivity. Qed.

Example splice_loses_a_title :
  map url (Previous.removeDuplicatePosts
             [post "X" "/1" true EmptyString; post "A" "/a" true EmptyString;
              post "X" "/2" true EmptyString; post "X" "/3" true EmptyString])
  = ["/a"%string].
Proof. reflexivity. Qed.

Example split_pieces :
  Previous.split ".com/" "https://www.shop.com/a.com/b"
  = ["https://www.shop"%string; "a"%string; "b"%string]
  /\ Previous.split ".com/" "http://localhost:3000/saddle"
     = ["http://localhost:3000/saddle"%string]
  /\ Previous.currentURL (host := Engine.host)
       "https://www.Shop.com/Ride/Saddles?x=1"
     = Some "ride/saddles?x=1"%string.
Proof. repeat split. Qed.

End PreviousExamples.

Module PreviousFacts.

(** ** The earlier activation step *)

Lemma write_active_length (l : nat) (b : bool) (h : Store.store) :
  List.length (Store.write_active l b h) = List.length h.
Proof.
  revert l. induction h as [|p h IH]; intros l; destruct l; simpl;
    try reflexivity.
  now rewrite IH.
Qed.

Lemma write_active_load (l l' : nat) (h : Store.store) :
  Store.load (Store.write_active l false h) l'
  = if (l' =? l)%nat then set_active false (Store.load h l')
    else Store.load h l'.
Proof.
  unfold Store.load. revert l l'.
  induction h as [|p h IH]; intros l l'.
  - destruct l; destruct l'; simpl; try reflexivity;
      destruct (_ =? _)%nat; reflexivity.
  - destruct l as [|l]; destruct l' as [|l']; simpl; try reflexivity.
    apply IH.
Qed.

Section Activation.

Context {host : Host}.

Lemma scheduled_set_active (rightNow : Z) (b : bool) (p : PostObject) :
  Previous.scheduled rightNow (set_active b p) = Previous.scheduled rightNow p.
Proof. reflexivity. Qed.

Lemma deactivate_length (rightNow : Z) (h : Store.store) (a : nat) :
  List.length (Previous.deactivate rightNow h a) = List.length h.
Proof.
  unfold Previous.deactivate.
  destruct (Date_parse _) as [t|]; [|reflexivity].
  destruct (t =? 0); [reflexivity|].
  destruct (t >? rightNow); [apply write_active_length|reflexivity].
Qed.

Lemma deactivate_load (rightNow : Z) (h : Store.store) (a l : nat) :
  Store.load (Previous.deactivate rightNow h a) l
  = if (l =? a)%nat && Previous.scheduled rightNow (Store.load h l)
    then set_active false (Store.load h l)
    else Store.load h l.
Proof.
  unfold Previous.deactivate, Previous.scheduled.
  destruct (Nat.eqb_spec l a) as [->|Hne]; simpl.
  - destruct (Date_parse _) as [t|]; [|reflexivity].
    destruct (t =? 0); simpl; [reflexivity|].
    destruct (t >? rightNow); [|reflexivity].
    now rewrite write_active_load, Nat.eqb_refl.
  - destruct (Date_parse (startDate (Store.load h a))) as [t|]; [|reflexivity].
    destruct (t =? 0); [reflexivity|].
    destruct (t >? rightNow); [|reflexivity].
    rewrite write_active_load.
    now destruct (Nat.eqb_spec l a).
Qed.

Lemma postsWithInactive_length (rightNow : Z) (pb : list nat) :
  forall h, List.length (Previous.postsWithInactive rightNow pb h)
            = List.length h.
Proof.
  unfold Previous.postsWithInactive.
  induction pb as [|a pb IH]; intros h; simpl; [reflexivity|].
  now rewrite IH, deactivate_length.
Qed.

(** What the loop leaves at every address. *)
Lemma postsWithInactive_load (rightNow : Z) (pb : list nat) :
  forall h l,
    Store.load (Previous.postsWithInactive rightNow pb h) l
    = if existsb (Nat.eqb l) pb
         && Previous.scheduled rightNow (Store.load h l)
      then set_active false (Store.load h l)
      else Store.load h l.
Proof.
  unfold Previous.postsWithInactive.
  induction pb as [|a pb IH]; intros h l; simpl; [reflexivity|].
  rewrite IH, deactivate_load.
  destruct (l =? a)%nat; simpl;
    destruct (Previous.scheduled rightNow (Store.load h l)) eqn:Hs; simpl;
    rewrite ?scheduled_set_active, ?Hs, ?andb_false_r, ?andb_true_r;
    try reflexivity.
  now destruct (existsb (Nat.eqb l) pb).
Qed.

Lemma existsb_eqb_In (l : nat) (pb : list nat) :
  existsb (Nat.eqb l) pb = true <-> In l pb.
Proof.
  rewrite existsb_exists. split.
  - intros (x & Hx & He). apply Nat.eqb_eq in He. now subst.
  - intros H. exists l. split; [assumption|apply Nat.eqb_refl].
Qed.

Lemma previous_activePosts_In (rightNow : Z) (pb : list nat)
    (h : Store.store)
    (l : nat) :
  In l (fst (Previous.activePosts rightNow pb h)) <->
  In l pb /\ active (Store.load h l) = true
  /\ Previous.scheduled rightNow (Store.load h l) = false.
Proof.
  unfold Previous.activePosts. simpl. rewrite filter_In, postsWithInactive_load.
  split.
  - intros [Hin Ha]. split; [assumption|].
    rewrite (proj2 (existsb_eqb_In l pb) Hin) in Ha. simpl in Ha.
    destruct (Previous.scheduled rightNow (Store.load h l));
      [discriminate|auto].
  - intros (Hin & Ha & Hs). split; [assumption|].
    now rewrite Hs, andb_false_r.
Qed.

End Activation.

End PreviousFacts.

(** X11: in the earlier revision a post passes the activation step exactly
    when its own flag is set and its start date does not parse to a
    non-zero instant after now; a post the editor switched off never
    passes, whatever its start date. *)
Theorem previous_activation_keeps_flag {host : Host} (rightNow : Z)
    (pb : list nat) (h : Store.store) :
  (forall l, In l (fst (Previous.activePosts rightNow pb h)) <->
             In l pb /\ active (Store.load h l) = true
             /\ Previous.scheduled rightNow (Store.load h l) = false)
  /\ (forall l, active (Store.load h l) = false ->
                ~ In l (fst (Previous.activePosts rightNow pb h))).
Proof.
  split; [intros l; apply PreviousFacts.previous_activePosts_In|].
  intros l Ha Hin.
  apply PreviousFacts.previous_activePosts_In in Hin as (_ & Ha' & _).
  congruence.
Qed.

(** X12: the earlier revision allocates nothing and writes to the post
    objects it is given: a post of the list scheduled after now is left
    switched off in the store, every other object is left as it was, and
    the post then fails the activation step of every later run, whatever
    the time of that run. *)
Theorem previous_activation_writes_configuration {host : Host}
    (rightNow : Z) (pb : list nat) (h : Store.store) :
  let h' := snd (Previous.activePosts rightNow pb h) in
  List.length h' = List.length h
  /\ (forall l, In l pb ->
        Previous.scheduled rightNow (Store.load h l) = true ->
        Store.load h' l = set_active false (Store.load h l)
        /\ forall (later : Z) (pb2 : list nat),
             ~ In l (fst (Previous.activePosts later pb2 h')))
  /\ (forall l, ~ In l pb -> Store.load h' l = Store.load h l)
  /\ (forall l, Previous.scheduled rightNow (Store.load h l) = false ->
                Store.load h' l = Store.load h l).
Proof.
  simpl. split; [apply PreviousFacts.postsWithInactive_length|].
  split; [|split].
  - intros l Hin Hs.
    assert (Hl : Store.load (Previous.postsWithInactive rightNow pb h) l
                 = set_active false (Store.load h l)).
    { rewrite PreviousFacts.postsWithInactive_load, Hs.
      now rewrite (proj2 (PreviousFacts.existsb_eqb_In l pb) Hin). }
    split; [assumption|]. intros later pb2 Hin2.
    apply PreviousFacts.previous_activePosts_In in Hin2 as (_ & Ha & _).
    rewrite Hl in Ha. discriminate.
  - intros l Hout. rewrite PreviousFacts.postsWithInactive_load.
    destruct (existsb (Nat.eqb l) pb) eqn:He; [|reflexivity].
    apply PreviousFacts.existsb_eqb_In in He. contradiction.
  - intros l Hs. rewrite PreviousFacts.postsWithInactive_load, Hs.
    now rewrite andb_false_r.
Qed.

Lemma previous_activation_keeps_flag_witness :
  ~ In 0%nat
      (fst (Previous.activePosts (host := Engine.host) Sample.in2026
              [0%nat] [Sample.hiddenPast])).
Proof.
  apply (proj2 (previous_activation_keeps_flag (host := Engine.host)
                  Sample.in2026 [0%nat] [Sample.hiddenPast])).
  reflexivity.
Defined.

Lemma previous_activation_writes_configuration_witness :
  Store.load
    (snd (Previous.activePosts (host := Engine.host) Sample.in2026
            [0%nat; 1%nat] SampleRun.launchStore)) 0
  = set_active false Sample.launch
  /\ ~ In 0%nat
         (fst (Previous.activePosts (host := Engine.host) Sample.in3000
                 [0%nat; 1%nat]
                 (snd (Previous.activePosts (host := Engine.host)
                         Sample.in2026 [0%nat; 1%nat]
                         SampleRun.launchStore)))).
Proof.
  destruct (proj1 (proj2 (previous_activation_writes_configuration
                            (host := Engine.host) Sample.in2026
                            [0%nat; 1%nat] SampleRun.launchStore))
              0%nat) as [H1 H2].
  - left. reflexivity.
  - reflexivity.
  - split; [exact H1|]. apply H2.
Defined.

(** ** The earlier deduplication *)

(** [l1] is [l2] with some elements left out, the others in order. *)
Inductive Subseq {A : Type} : list A -> list A -> Prop :=
| Subseq_nil : Subseq [] []
| Subseq_keep : forall x l1 l2, Subseq l1 l2 -> Subseq (x :: l1) (x :: l2)
| Subseq_drop : forall x l1 l2, Subseq l1 l2 -> Subseq l1 (x :: l2).

Module SpliceFacts.

Lemma Subseq_refl {A : Type} (l : list A) : Subseq l l.
Proof. induction l; constructor; assumption. Qed.

Lemma Subseq_trans {A : Type} (l1 l2 l3 : list A) :
  Subseq l1 l2 -> Subseq l2 l3 -> Subseq l1 l3.
Proof.
  intros H12 H23. revert l1 H12.
  induction H23 as [|x l2 l3 H IH|x l2 l3 H IH]; intros l1 H12.
  - assumption.
  - inversion H12; subst; constructor; auto.
  - constructor. auto.
Qed.

Lemma Subseq_length {A : Type} (l1 l2 : list A) :
  Subseq l1 l2 -> (List.length l1 <= List.length l2)%nat.
Proof. induction 1; simpl; lia. Qed.

Lemma Subseq_splice1 {A : Type} (index : nat) (arr : list A) :
  Subseq (Previous.splice1 index arr) arr.
Proof.
  unfold Previous.splice1. revert index.
  induction arr as [|x arr IH]; intros index.
  - destruct index; constructor.
  - destruct index as [|index]; simpl.
    + constructor. apply Subseq_refl.
    + constructor. apply IH.
Qed.

Lemma innerCallback_Subseq (parentIndex : nat) (checkForTitle : string)
    (arr : list PostObject) (index : nat) :
  Subseq (Previous.innerCallback parentIndex checkForTitle arr index) arr.
Proof.
  unfold Previous.innerCallback.
  destruct (nth_error arr index); [|apply Subseq_refl].
  destruct (negb _); [|apply Subseq_refl].
  destruct (String.eqb _ _); [apply Subseq_splice1|apply Subseq_refl].
Qed.

Lemma fold_Subseq {A I : Type} (f : list A -> I -> list A) (idxs : list I) :
  (forall arr i, Subseq (f arr i) arr) ->
  forall arr, Subseq (fold_left f idxs arr) arr.
Proof.
  intros Hf. induction idxs as [|i idxs IH]; intros arr; simpl.
  - apply Subseq_refl.
  - eapply Subseq_trans; [apply IH|apply Hf].
Qed.

Lemma outerCallback_Subseq (arr : list PostObject) (parentIndex : nat) :
  Subseq (Previous.outerCallback arr parentIndex) arr.
Proof.
  unfold Previous.outerCallback.
  destruct (nth_error arr parentIndex); [|apply Subseq_refl].
  apply fold_Subseq. intros a i. apply innerCallback_Subseq.
Qed.

Lemma fold_fixed {A I : Type} (f : A -> I -> A) (idxs : list I) (a : A) :
  (forall i, f a i = a) -> fold_left f idxs a = a.
Proof.
  intros H. induction idxs as [|i idxs IH]; simpl; [reflexivity|].
  now rewrite H.
Qed.

Lemma innerCallback_distinct (arr : list PostObject)
    (parentIndex index : nat) (parentPost : PostObject) :
  NoDup (map p_editorItemTitle arr) ->
  nth_error arr parentIndex = Some parentPost ->
  Previous.innerCallback parentIndex (p_editorItemTitle parentPost) arr index
  = arr.
Proof.
  intros Hnd Hp. unfold Previous.innerCallback.
  destruct (nth_error arr index) as [post|] eqn:Hi; [|reflexivity].
  destruct (Nat.eqb_spec parentIndex index) as [|Hne]; [reflexivity|].
  simpl. destruct (String.eqb_spec (p_editorItemTitle post)
                     (p_editorItemTitle parentPost)) as [He|]; [|reflexivity].
  exfalso. apply Hne. symmetry.
  apply (proj1 (NoDup_nth_error (map p_editorItemTitle arr)) Hnd).
  - rewrite length_map. apply nth_error_Some. congruence.
  - rewrite !nth_error_map, Hi, Hp. simpl. now rewrite He.
Qed.

Lemma outerCallback_distinct (arr : list PostObject) (parentIndex : nat) :
  NoDup (map p_editorItemTitle arr) ->
  Previous.outerCallback arr parentIndex = arr.
Proof.
  intros Hnd. unfold Previous.outerCallback.
  destruct (nth_error arr parentIndex) as [parentPost|] eqn:Hp;
    [|reflexivity].
  apply fold_fixed. intros i. now apply innerCallback_distinct.
Qed.

End SpliceFacts.

(** X13: the earlier deduplication only removes posts: what it returns is
    the list it was given with some posts left out, the others in their
    order, so it is no longer; and a list whose titles are pairwise
    distinct is returned as it is. *)
Theorem previous_dedup_only_removes (postBuilder : list PostObject) :
  Subseq (Previous.removeDuplicatePosts postBuilder) postBuilder
  /\ (List.length (Previous.removeDuplicatePosts postBuilder)
      <= List.length postBuilder)%nat
  /\ (forall q, In q (Previous.removeDuplicatePosts postBuilder) ->
                In q postBuilder)
  /\ (NoDup (map p_editorItemTitle postBuilder) ->
      Previous.removeDuplicatePosts postBuilder = postBuilder).
Proof.
  assert (Hs : Subseq (Previous.removeDuplicatePosts postBuilder)
                 postBuilder).
  { unfold Previous.removeDuplicatePosts. apply SpliceFacts.fold_Subseq.
    apply SpliceFacts.outerCallback_Subseq. }
  split; [assumption|]. split; [now apply SpliceFacts.Subseq_length|].
  split.
  - induction Hs as [|x l1 l2 H IH|x l1 l2 H IH]; intros q Hq.
    + destruct Hq.
    + destruct Hq as [->|Hq]; [now left|right; auto].
    + right. auto.
  - intros Hnd. unfold Previous.removeDuplicatePosts.
    apply SpliceFacts.fold_fixed. intros i.
    now apply SpliceFacts.outerCallback_distinct.
Qed.

Lemma previous_dedup_only_removes_witness :
  Previous.removeDuplicatePosts [Sample.pinnedX; Sample.launch]
  = [Sample.pinnedX; Sample.launch].
Proof.
  apply (proj2 (proj2 (proj2 (previous_dedup_only_removes
                                [Sample.pinnedX; Sample.launch])))).
  repeat constructor; simpl; intuition discriminate.
Defined.

(** ** The earlier reading of the address *)

Module SplitFacts.

Lemma append_nil_r (s : string) : (s ++ EmptyString)%string = s.
Proof. induction s as [|c s IH]; simpl; [reflexivity|]. now rewrite IH. Qed.

Lemma append_assoc (a b c : string) :
  ((a ++ b) ++ c)%string = (a ++ b ++ c)%string.
Proof. induction a as [|x a IH]; simpl; [reflexivity|]. now rewrite IH. Qed.

Lemma includes_cons_false (c : ascii) (s k : string) :
  includes (String c s) k = false ->
  String.prefix k (String c s) = false /\ includes s k = false.
Proof.
  rewrite includes_eq. destruct (String.prefix k (String c s));
    [discriminate|auto].
Qed.

Lemma split_go_cons (sep : string) (c : ascii) (s cur : string) :
  Previous.split_go sep (String c s) 0 cur
  = if String.prefix sep (String c s)
    then cur :: Previous.split_go sep s (String.length sep - 1) EmptyString
    else Previous.split_go sep s 0 (cur ++ String c EmptyString)%string.
Proof. reflexivity. Qed.

Lemma split_go_skip (sep x : string) :
  forall s cur,
    Previous.split_go sep (x ++ s) (String.length x) cur
    = Previous.split_go sep s 0 cur.
Proof.
  induction x as [|c x IH]; intros s cur; simpl; [|apply IH].
  now destruct s.
Qed.

Lemma split_go_whole (sep s : string) :
  forall cur,
    includes s sep = false ->
    Previous.split_go sep s 0 cur = [(cur ++ s)%string].
Proof.
  induction s as [|c s IH]; intros cur H.
  - simpl. now rewrite append_nil_r.
  - apply includes_cons_false in H as [Hp Hi].
    change (Previous.split_go sep (String c s) 0 cur)
      with (if String.prefix sep (String c s)
            then cur :: Previous.split_go sep s (String.length sep - 1)
                          EmptyString
            else Previous.split_go sep s 0
                   (cur ++ String c EmptyString)%string).
    rewrite Hp, (IH _ Hi), append_assoc. reflexivity.
Qed.

Lemma split_go_nonempty (sep s : string) :
  forall skip cur, exists x rest,
    Previous.split_go sep s skip cur = x :: rest.
Proof.
  induction s as [|c s IH]; intros skip cur.
  - now exists cur, [].
  - destruct skip as [|k].
    + change (Previous.split_go sep (String c s) 0 cur)
        with (if String.prefix sep (String c s)
              then cur :: Previous.split_go sep s (String.length sep - 1)
                            EmptyString
              else Previous.split_go sep s 0
                     (cur ++ String c EmptyString)%string).
      destruct (String.prefix sep (String c s)); [eauto|apply IH].
    + apply IH.
Qed.

Lemma split_go_two (d : ascii) (sep' s : string) :
  forall cur,
    includes s (String d sep') = true ->
    exists x y rest,
      Previous.split_go (String d sep') s 0 cur = x :: y :: rest.
Proof.
  induction s as [|c s IH]; intros cur H.
  - discriminate.
  - rewrite includes_eq in H.
    change (Previous.split_go (String d sep') (String c s) 0 cur)
      with (if String.prefix (String d sep') (String c s)
            then cur :: Previous.split_go (String d sep') s
                          (String.length (String d sep') - 1) EmptyString
            else Previous.split_go (String d sep') s 0
                   (cur ++ String c EmptyString)%string).
    destruct (String.prefix (String d sep') (String c s)).
    + destruct (split_go_nonempty (String d sep') s
                  (String.length (String d sep') - 1) EmptyString)
        as (y & rest & ->).
      now exists cur, y, rest.
    + now apply IH.
Qed.

(** With a piece of at least one character before it, whether [.com/]
    begins a text is decided within that piece and [.com]. *)
Lemma prefix_com (c : ascii) (a b : string) :
  String.prefix ".com/" (String c a ++ ".com/" ++ b)
  = String.prefix ".com/" (String c a ++ ".com").
Proof.
  destruct a as [|c2 [|c3 [|c4 [|c5 a]]]]; cbn [String.prefix String.append];
    repeat (destruct (ascii_dec _ _); try reflexivity; try discriminate).
  destruct a; reflexivity.
Qed.

Lemma split_go_first (a : string) :
  forall b cur,
    includes (a ++ ".com") ".com/" = false ->
    Previous.split_go ".com/" (a ++ ".com/" ++ b) 0 cur
    = (cur ++ a)%string :: Previous.split_go ".com/" b 0 EmptyString.
Proof.
  induction a as [|c a IH]; intros b cur H.
  - rewrite append_nil_r.
    change (EmptyString ++ ".com/" ++ b)%string
      with (String "." ("com/" ++ b)).
    rewrite split_go_cons.
    replace (String.prefix ".com/" (String "." ("com/" ++ b))) with true
      by (symmetry; apply prefix_app; now exists b).
    change (String.length ".com/" - 1)%nat with (String.length "com/").
    now rewrite split_go_skip.
  - change (String c a ++ ".com")%string
      with (String c (a ++ ".com")) in H.
    apply includes_cons_false in H as [Hp Hi].
    change (Previous.split_go ".com/" (String c a ++ ".com/" ++ b) 0 cur)
      with (if String.prefix ".com/" (String c a ++ ".com/" ++ b)
            then cur :: Previous.split_go ".com/" (a ++ ".com/" ++ b) 4
                          EmptyString
            else Previous.split_go ".com/" (a ++ ".com/" ++ b) 0
                   (cur ++ String c EmptyString)%string).
    rewrite prefix_com.
    change (String c (a ++ ".com")) with (String c a ++ ".com")%string in Hp.
    rewrite Hp, (IH b _ Hi), append_assoc. reflexivity.
Qed.

End SplitFacts.

(** X14: the earlier [searchCurrentURL] throws exactly when the address
    does not hold [.com/]; when [.com/] first occurs after [a] and does
    not occur in what follows, the text matched against the keywords is
    what follows, lower-cased, and when [.com/] occurs again only what
    stands between the first two occurrences is matched. *)
Theorem previous_currentURL_after_com {host : Host} (href : string) :
  (Previous.currentURL href = None <-> ~ Substring ".com/" href)
  /\ (forall a b,
        href = (a ++ ".com/" ++ b)%string ->
        includes (a ++ ".com") ".com/" = false ->
        includes b ".com/" = false ->
        Previous.currentURL href = Some (toLowerCase b))
  /\ (forall a b rest,
        href = (a ++ ".com/" ++ b ++ ".com/" ++ rest)%string ->
        includes (a ++ ".com") ".com/" = false ->
        includes (b ++ ".com") ".com/" = false ->
        Previous.currentURL href = Some (toLowerCase b)).
Proof.
  unfold Previous.currentURL, Previous.split. split; [|split].
  - rewrite <- includes_spec. destruct (includes href ".com/") eqn:Hi.
    + destruct (SplitFacts.split_go_two "." "com/" href EmptyString Hi)
        as (x & y & rest & ->).
      simpl. split; [discriminate|]. intros H. now elim H.
    + rewrite (SplitFacts.split_go_whole ".com/" href EmptyString Hi).
      simpl. split; [discriminate|reflexivity].
  - intros a b -> Ha Hb.
    rewrite (SplitFacts.split_go_first a b EmptyString Ha).
    rewrite (SplitFacts.split_go_whole ".com/" b EmptyString Hb).
    reflexivity.
  - intros a b rest -> Ha Hb.
    rewrite (SplitFacts.split_go_first a _ EmptyString Ha).
    rewrite (SplitFacts.split_go_first b rest EmptyString Hb).
    reflexivity.
Qed.

Lemma previous_currentURL_after_com_witness :
  Previous.currentURL (host := Engine.host)
    "https://www.Shop.com/Ride/Saddles?x=1"
  = Some (toLowerCase (Host := Engine.host) "Ride/Saddles?x=1").
Proof.
  apply (proj1 (proj2 (previous_currentURL_after_com (host := Engine.host)
                         "https://www.Shop.com/Ride/Saddles?x=1"))
           "https://www.Shop"%string "Ride/Saddles?x=1"%string).
  - reflexivity.
  - reflexivity.
  - reflexivity.
Defined.

(** ** The posts of the state are copies *)

Module CopyFacts.

Lemma Map_set_In {V : Type} (k : string) (v : V) (m : list (string * V))
    (kv : string * V) :
  In kv (Map_set k v m) -> kv = (k, v) \/ In kv m.
Proof.
  induction m as [|[k' v'] m IH]; simpl.
  - intros [<-|[]]. now left.
  - destruct (String.eqb k' k); simpl.
    + intros [<-|H]; auto.
    + intros [<-|H]; auto. destruct (IH H); auto.
Qed.

Lemma postMap_In (h : Store.store) (ap : list nat) :
  forall (m : list (string * nat)) (kv : string * nat),
    In kv (fold_left
             (fun m post =>
                Map_set (p_editorItemTitle (Store.load h post)) post m)
             ap m) ->
    In (snd kv) ap \/ In kv m.
Proof.
  induction ap as [|l ap IH]; intros m kv; simpl; [auto|].
  intros H. destruct (IH _ _ H) as [H'|H']; [auto|].
  apply Map_set_In in H' as [->|H']; auto.
Qed.

Lemma store_uniquePosts_In (h : Store.store) (ap : list nat) (l : nat) :
  In l (Store.uniquePosts ap h) -> In l ap.
Proof.
  unfold Store.uniquePosts, Store.postMap. intros H.
  apply in_map_iff in H as (kv & <- & H).
  destruct (postMap_In h ap [] kv H) as [H'|[]]. assumption.
Qed.

Lemma truncated_In {A : Type} (d : Device) (l : list A) (x : A) :
  In x (truncated d l) -> In x l.
Proof. rewrite truncated_firstn. apply firstn_In. Qed.

End CopyFacts.

(** X15: in the latest revision a run only adds objects to the store, and
    every post the state holds after a trigger message is one of the
    objects that run added: the component never hands a post object of
    the configuration to the renderer. *)
Theorem rendered_posts_are_copies {host : Host}
    (props : InfoHubv3Props nat) (win : Window) (st : HubState nat)
    (h : Store.store) :
  Store.allocated h props ->
  showInfoHub win = true ->
  exists st' ext,
    Store.messageHandler props win "ebs-infohub-run" st h
    = Some (st', (h ++ ext)%list)
    /\ Forall (fun l => (List.length h <= l < List.length (h ++ ext))%nat)
              (postsState st').
Proof.
  intros Hall Hs. unfold Store.messageHandler. rewrite Hs. simpl.
  unfold Store.resetInfoHub, Store.buildKeywordList, Store.searchCurrentURL.
  rewrite (showInfoHub_DOM win Hs). simpl.
  destruct (topicBuilder win (keywordList props)) as [|t0 ts].
  - exists (setLoading false (setPosts [] (setLoading true st))), [].
    rewrite app_nil_r. split; [reflexivity|constructor].
  - unfold Store.sortTopics.
    destruct (ranked_some nat props win) as (Hr & _ & Hp). rewrite Hr.
    unfold Store.buildPosts. rewrite Hp.
    unfold Store.removeInactivePosts, Store.activePosts.
    rewrite StoreFacts.postsWithInactive_copies
      by (apply Forall_app; split;
          [apply Hall|now apply StoreFacts.postsOf_allocated]).
    eexists. eexists. split; [reflexivity|].
    apply Forall_forall. intros l Hl. simpl in Hl.
    apply CopyFacts.truncated_In, CopyFacts.store_uniquePosts_In in Hl.
    apply filter_In in Hl as [Hl _]. apply in_seq in Hl.
    rewrite length_app. unfold postsWithInactive. rewrite !length_map.
    lia.
Qed.

Lemma rendered_posts_are_copies_witness :
  exists st' ext,
    Store.messageHandler (host := Engine.host) SampleRun.launchShop
      SampleRun.mobilePage "ebs-infohub-run" initialState
      SampleRun.launchStore
    = Some (st', (SampleRun.launchStore ++ ext)%list)
    /\ Forall (fun l => (2 <= l)%nat) (postsState st').
Proof.
  destruct (rendered_posts_are_copies (host := Engine.host)
              SampleRun.launchShop SampleRun.mobilePage initialState
              SampleRun.launchStore)
    as (st' & ext & Hrun & Hfresh).
  - split; repeat constructor.
  - reflexivity.
  - exists st', ext. split; [exact Hrun|].
    eapply Forall_impl; [|exact Hfresh]. simpl. intros l Hl. lia.
Defined.
